(** * Coffee profile decision rules (decision_rules.py)

    A shallow embedding of the rule-based point-scoring engine: the
    scoreboard, delta application, arg-max resolution with first-wins
    tie-break, the explanation ranker and [build_profile] with its
    bean-preference overrides.

    Modelling choices.
    - Python [int] is unbounded: scores, deltas and priorities are [Z].
    - Python [str] is [string]; the arrow and dash characters of the
      explanation texts are kept as their UTF-8 bytes.
    - A Python [dict] iterates in insertion order and the arg-max depends
      on that order, so a dict is an association list [list (string * V)]
      read front to back; [WfDict] says that the keys are pairwise
      distinct, as they are in every Python dict.
    - [d[k]] raises [KeyError] on a missing key: subscription runs in the
      error monad [result].
    - The in-place updates of [apply_delta] and the two loops of
      [build_profile] are written with explicit state passing. *)

From Stdlib Require Import ZArith List String Bool Lia Permutation Sorted.
From Stdlib Require Import NArith Ascii.
Import ListNotations.
Local Open Scope string_scope.
Local Open Scope list_scope.
Local Open Scope Z_scope.

(* ================================================================== *)
(** ** Errors *)

Inductive result (A : Type) : Type :=
| Ok (a : A)
| KeyError (key : string).

Arguments Ok {A} a.
Arguments KeyError {A} key.

Definition bind {A B : Type} (c : result A) (f : A -> result B) : result B :=
  match c with
  | Ok a => f a
  | KeyError k => KeyError k
  end.

Notation "x <- c ;; k" := (bind c (fun x => k))
  (at level 61, c at next level, right associativity).
Notation "' pat <- c ;; k" := (bind c (fun x => match x with pat => k end))
  (at level 61, pat pattern, c at next level, right associativity).

(* ================================================================== *)
(** ** Python dictionaries with string keys *)

Module Dict.

Definition t (V : Type) : Type := list (string * V).

Section Ops.
Variable V : Type.

(** [k in d] *)
Fixpoint contains (k : string) (d : t V) : bool :=
  match d with
  | [] => false
  | (k', _) :: rest => if String.eqb k k' then true else contains k rest
  end.

(** [d[k]] *)
Fixpoint getitem (k : string) (d : t V) : result V :=
  match d with
  | [] => KeyError k
  | (k', v) :: rest => if String.eqb k k' then Ok v else getitem k rest
  end.

(** [d.get(k, default)] *)
Definition get (k : string) (d : t V) (default : V) : V :=
  match getitem k d with
  | Ok v => v
  | KeyError _ => default
  end.

(** [d[k] = v]: an existing key keeps its position, a new key goes last. *)
Fixpoint setitem (k : string) (v : V) (d : t V) : t V :=
  match d with
  | [] => [(k, v)]
  | (k', v') :: rest =>
      if String.eqb k k' then (k', v) :: rest else (k', v') :: setitem k v rest
  end.

(** [list(d.keys())] *)
Definition keys (d : t V) : list string := map fst d.

End Ops.

Arguments contains {V} k d.
Arguments getitem {V} k d.
Arguments get {V} k d default.
Arguments setitem {V} k v d.
Arguments keys {V} d.

End Dict.

(** The keys of a Python dict are pairwise distinct. *)
Definition WfDict {V : Type} (d : Dict.t V) : Prop := NoDup (Dict.keys d).

(* ================================================================== *)
(** ** Label candidates *)

Definition ACIDITY : list string := ["low"; "medium"; "high"].
Definition CAFFEINE : list string := ["low"; "medium"; "high"].
Definition ROAST : list string := ["light"; "medium"; "dark"].
Definition FLAVOR : list string :=
  ["nutty_chocolate"; "sweet_caramel"; "fruity"; "floral"; "spicy"].
Definition PROCESS : list string :=
  ["washed"; "natural"; "honey"; "anaerobic"; "any"].
Definition BREW : list string := ["filter"; "espresso"; "both"].

(* ================================================================== *)
(** ** User input schema *)

Module UserPref.
Record t : Type := Build {
  stomach_sensitivity : string;
  caffeine_sensitivity : string;
  time_of_day : string;
  purpose : string;
  flavor_direction : list string;
  brew_method : string
}.
End UserPref.

(* ================================================================== *)
(** ** Scoring utilities *)

Definition score_map : Type := Dict.t Z.
Definition scoreboard : Type := Dict.t score_map.

(** [{k: 0 for k in labels}] *)
Definition zero_scores (labels : list string) : score_map :=
  map (fun k => (k, 0)) labels.

Definition init_scoreboard : scoreboard :=
  [ ("acidity", zero_scores ACIDITY);
    ("caffeine", zero_scores CAFFEINE);
    ("roast", zero_scores ROAST);
    ("flavor", zero_scores FLAVOR);
    ("process", zero_scores PROCESS);
    ("brew", zero_scores BREW);
    ("bean_pref", [("arabica", 0); ("blend", 0); ("robusta", 0)]) ].

(** The inner loop of [apply_delta]:
    [for label, delta in changes.items():
       if label in scores[dim]: scores[dim][label] += delta].
    The augmented assignment rewrites the entry of the inner dict in
    place; here the updated inner dict is stored back under [dim]. *)
Fixpoint apply_changes (dim : string) (changes : Dict.t Z) (scores : scoreboard)
  : result scoreboard :=
  match changes with
  | [] => Ok scores
  | (label, delta) :: rest =>
      row <- Dict.getitem dim scores ;;
      if Dict.contains label row then
        old <- Dict.getitem label row ;;
        apply_changes dim rest
          (Dict.setitem dim (Dict.setitem label (old + delta) row) scores)
      else apply_changes dim rest scores
  end.

(** [apply_delta(scores, deltas)]; the mutated scoreboard is returned. *)
Fixpoint apply_delta (scores : scoreboard) (deltas : Dict.t (Dict.t Z))
  : result scoreboard :=
  match deltas with
  | [] => Ok scores
  | (dim, changes) :: rest =>
      if negb (Dict.contains dim scores) then apply_delta scores rest
      else
        scores' <- apply_changes dim changes scores ;;
        apply_delta scores' rest
  end.

(** The loop of [argmax_label].  [best] and [best_score] are assigned
    together, so the pair is one optional value: [None] is Python's
    [best is None]. *)
Fixpoint argmax_loop (items : list (string * Z)) (best : option (string * Z))
  : option (string * Z) :=
  match items with
  | [] => best
  | (k, v) :: rest =>
      match best with
      | None => argmax_loop rest (Some (k, v))
      | Some (_, best_score) =>
          if v >? best_score then argmax_loop rest (Some (k, v))
          else argmax_loop rest best
      end
  end.

(** [argmax_label(score_map)]; [None] is the Python value [None] that the
    function returns on an empty mapping. *)
Definition argmax_label (m : score_map) : option string :=
  option_map fst (argmax_loop m None).

(** [sorted(reasons, key=lambda x: x[1], reverse=True)]: Python's sort is
    stable, also under [reverse=True]; insertion from the right puts
    an entry in front of the entries that do not beat its priority. *)
Fixpoint insert_desc (x : string * Z) (l : list (string * Z))
  : list (string * Z) :=
  match l with
  | [] => [x]
  | y :: rest =>
      if snd y >? snd x then y :: insert_desc x rest else x :: y :: rest
  end.

Fixpoint sorted_desc (l : list (string * Z)) : list (string * Z) :=
  match l with
  | [] => []
  | x :: rest => insert_desc x (sorted_desc rest)
  end.

(** [l[:k]] for a Python [int] [k]: a negative stop counts from the end,
    and the stop is clamped to the list. *)
Definition slice_to {A : Type} (l : list A) (k : Z) : list A :=
  let n := Z.of_nat (List.length l) in
  let stop := if k <? 0 then Z.max (k + n) 0 else Z.min k n in
  firstn (Z.to_nat stop) l.

(** [top_reasons(reasons, k)].  The second component is the caller's
    [reasons] list after the call: [sorted] builds a new list and the
    slice another, so the argument is handed back as it came. *)
Definition top_reasons_run (reasons : list (string * Z)) (k : Z)
  : list string * list (string * Z) :=
  let reasons_sorted := sorted_desc reasons in
  (map fst (slice_to reasons_sorted k), reasons).

Definition top_reasons (reasons : list (string * Z)) (k : Z) : list string :=
  fst (top_reasons_run reasons k).

(* ================================================================== *)
(** ** Rules definition *)

(** A rule: the deltas it adds, its explanation text and the priority of
    that explanation. *)
Definition Rule : Type := (Dict.t (Dict.t Z) * string * Z)%type.

Definition RULES : Dict.t (Dict.t Rule) :=
  [ ("stomach_sensitivity",
     [ ("high",
        ([ ("acidity", [("low", 4); ("medium", 1); ("high", -3)]);
           ("roast", [("medium", 2); ("dark", 2); ("light", -2)]);
           ("bean_pref", [("arabica", 3); ("blend", 1); ("robusta", -6)]) ],
         "High stomach sensitivity → prioritize low acidity + smoother roast; avoid robusta-heavy options to reduce irritation risk.",
         110));
       ("medium",
        ([ ("acidity", [("medium", 3); ("low", 1); ("high", -1)]);
           ("roast", [("medium", 2); ("light", 1); ("dark", 1)]);
           ("bean_pref", [("arabica", 1); ("blend", 1); ("robusta", -1)]) ],
         "Medium stomach sensitivity → keep profile balanced; prefer cleaner/smoother options.",
         70));
       ("low",
        ([ ("acidity", [("high", 2); ("medium", 2); ("low", 0)]);
           ("roast", [("light", 2); ("medium", 2); ("dark", 0)]);
           ("bean_pref", [("arabica", 0); ("blend", 1); ("robusta", 1)]) ],
         "Low stomach sensitivity → you can explore brighter profiles; bean choice is flexible.",
         50)) ]);
    ("caffeine_sensitivity",
     [ ("high",
        ([ ("caffeine", [("low", 5); ("medium", 1); ("high", -6)]);
           ("bean_pref", [("arabica", 4); ("blend", 1); ("robusta", -10)]) ],
         "High caffeine sensitivity → strongly prioritize low caffeine; avoid robusta-heavy coffee.",
         120));
       ("medium",
        ([ ("caffeine", [("medium", 3); ("low", 1); ("high", -2)]);
           ("bean_pref", [("arabica", 2); ("blend", 1); ("robusta", -2)]) ],
         "Medium caffeine sensitivity → aim for moderate caffeine (Arabica or light blend).",
         70));
       ("low",
        ([ ("caffeine", [("high", 2); ("medium", 2); ("low", 0)]);
           ("bean_pref", [("robusta", 2); ("blend", 1); ("arabica", 0)]) ],
         "Low caffeine sensitivity → higher caffeine profiles are acceptable (blend/robusta allowed).",
         40)) ]);
    ("time_of_day",
     [ ("morning",
        ([ ("caffeine", [("high", 2); ("medium", 2); ("low", 0)]);
           ("roast", [("medium", 2); ("light", 1)]) ],
         "Morning coffee → allow medium–high caffeine for an energizing start.",
         60));
       ("afternoon",
        ([ ("caffeine", [("medium", 2); ("low", 1); ("high", 1)]);
           ("roast", [("medium", 2)]) ],
         "Afternoon coffee → keep caffeine moderate to avoid an afternoon crash.",
         50));
       ("evening",
        ([ ("caffeine", [("low", 3); ("medium", 1); ("high", -2)]);
           ("roast", [("medium", 2); ("dark", 1)]) ],
         "Evening coffee → prioritize lower caffeine to reduce sleep disruption risk.",
         80)) ]);
    ("purpose",
     [ ("focus",
        ([ ("caffeine", [("high", 2); ("medium", 2); ("low", 0)]);
           ("roast", [("medium", 2)]) ],
         "Purpose: focus → lean toward medium–high caffeine with a balanced roast.",
         60));
       ("balanced",
        ([ ("caffeine", [("medium", 2)]);
           ("roast", [("medium", 2)]);
           ("acidity", [("medium", 2)]) ],
         "Purpose: balanced → default to a versatile middle-profile (medium caffeine, medium roast, medium acidity).",
         50));
       ("calm",
        ([ ("caffeine", [("low", 2); ("medium", 1); ("high", -1)]);
           ("acidity", [("low", 2); ("medium", 1)]) ],
         "Purpose: calm → prefer lower stimulation (lower caffeine, gentler acidity).",
         80)) ]);
    ("brew_method",
     [ ("filter",
        ([ ("brew", [("filter", 3); ("both", 1)]);
           ("roast", [("light", 1); ("medium", 2)]) ],
         "Brew method: filter → filter-friendly profiles often shine at light–medium roast.",
         40));
       ("espresso",
        ([ ("brew", [("espresso", 3); ("both", 1)]);
           ("roast", [("medium", 2); ("dark", 2)]) ],
         "Brew method: espresso → espresso-friendly profiles often fit medium–dark roast.",
         40));
       ("both",
        ([ ("brew", [("both", 3); ("filter", 1); ("espresso", 1)]);
           ("roast", [("medium", 2)]) ],
         "Brew method: both → choose a flexible medium roast profile.",
         30)) ]) ].

(** Flavor direction: one rule per selected flavor. *)
Definition FLAVOR_RULES : Dict.t Rule :=
  [ ("nutty_chocolate",
     ([ ("flavor", [("nutty_chocolate", 3)]);
        ("roast", [("medium", 2); ("dark", 2)]);
        ("process", [("washed", 1); ("honey", 1); ("any", 1)]) ],
      "Flavor: nutty/chocolate → often pairs well with medium–dark roast; washed/honey can keep it clean and rounded.",
      55));
    ("sweet_caramel",
     ([ ("flavor", [("sweet_caramel", 3)]);
        ("roast", [("medium", 2)]);
        ("process", [("honey", 2); ("natural", 1); ("any", 1)]) ],
      "Flavor: sweet/caramel → typically fits medium roast; honey/natural processes can enhance sweetness.",
      55));
    ("fruity",
     ([ ("flavor", [("fruity", 3)]);
        ("roast", [("light", 2); ("medium", 1); ("dark", -1)]);
        ("process", [("natural", 2); ("anaerobic", 1); ("washed", 1); ("any", 1)]) ],
      "Flavor: fruity → commonly found in light–medium roast; natural/anaerobic can emphasize fruit notes.",
      55));
    ("floral",
     ([ ("flavor", [("floral", 3)]);
        ("roast", [("light", 2); ("medium", 1)]);
        ("process", [("washed", 2); ("any", 1)]) ],
      "Flavor: floral → often shines in light roast; washed process tends to keep it clean and tea-like.",
      55));
    ("spicy",
     ([ ("flavor", [("spicy", 3)]);
        ("roast", [("medium", 2); ("dark", 2)]);
        ("process", [("washed", 1); ("natural", 1); ("any", 1)]) ],
      "Flavor: spicy/earthy → commonly matches medium–dark roast; washed/natural can work depending on the bean.",
      55)) ].

(* ================================================================== *)
(** ** Main function: building the coffee profile *)

(** The ["profile"] entry of the returned dict.  A label is what
    [argmax_label] returned: a string, or Python's [None]. *)
Module Profile.
Record t : Type := Build {
  acidity_level : option string;
  caffeine_tendency : option string;
  roast_level : option string;
  flavor_direction : option string;
  process_preference : option string;
  brew_suitability : option string;
  bean_preference : option string
}.
End Profile.

(** The dict returned by [build_profile]. *)
Module Output.
Record t : Type := Build {
  profile : Profile.t;
  scores : scoreboard;
  reasons : list string;
  disclaimer : string
}.
End Output.

(** The two locals that the loops of [build_profile] mutate: [scores]
    and [reasons]. *)
Definition engine_state : Type := (scoreboard * list (string * Z))%type.

(** A Python [for] loop whose body updates the state or raises. *)
Fixpoint for_each {A S : Type} (body : S -> A -> result S) (xs : list A) (st : S)
  : result S :=
  match xs with
  | [] => Ok st
  | x :: rest => st' <- body st x ;; for_each body rest st'
  end.

(** Body of the loop over the single-choice fields. *)
Definition single_choice_step (st : engine_state) (fv : string * string)
  : result engine_state :=
  let '(scores, reasons) := st in
  let '(field_name, value) := fv in
  let field_rules := Dict.get field_name RULES [] in
  if negb (Dict.contains value field_rules) then Ok st
  else
    ' (deltas, reason, r_weight) <- Dict.getitem value field_rules ;;
    scores' <- apply_delta scores deltas ;;
    Ok (scores', reasons ++ [(reason, r_weight)]).

(** Body of the loop over [user.flavor_direction]. *)
Definition flavor_step (st : engine_state) (f : string) : result engine_state :=
  let '(scores, reasons) := st in
  if negb (Dict.contains f FLAVOR_RULES) then Ok st
  else
    ' (deltas, reason, r_weight) <- Dict.getitem f FLAVOR_RULES ;;
    scores' <- apply_delta scores deltas ;;
    Ok (scores', reasons ++ [(reason, r_weight)]).

(** [label == s] for a label that may be [None]. *)
Definition label_is (label : option string) (s : string) : bool :=
  match label with
  | Some l => String.eqb l s
  | None => false
  end.

(** The single-choice answers in the order the first loop visits them. *)
Definition single_choice_fields (user : UserPref.t) : list (string * string) :=
  [ ("stomach_sensitivity", UserPref.stomach_sensitivity user);
    ("caffeine_sensitivity", UserPref.caffeine_sensitivity user);
    ("time_of_day", UserPref.time_of_day user);
    ("purpose", UserPref.purpose user);
    ("brew_method", UserPref.brew_method user) ].

(** The state after both loops: the scoreboard and every collected
    (text, priority) entry, before resolution and ranking. *)
Definition run_rules (user : UserPref.t) : result engine_state :=
  st <- for_each single_choice_step (single_choice_fields user)
          (init_scoreboard, []) ;;
  for_each flavor_step (UserPref.flavor_direction user) st.

Definition DISCLAIMER : string :=
  "This is a preference-based recommendation and not medical advice.".

Definition build_profile (user : UserPref.t) : result Output.t :=
  ' (scores, reasons) <- run_rules user ;;
  acidity <- Dict.getitem "acidity" scores ;;
  let target_acidity := argmax_label acidity in
  caffeine <- Dict.getitem "caffeine" scores ;;
  let target_caffeine := argmax_label caffeine in
  roast <- Dict.getitem "roast" scores ;;
  let target_roast := argmax_label roast in
  flavor <- Dict.getitem "flavor" scores ;;
  let target_flavor := argmax_label flavor in
  process <- Dict.getitem "process" scores ;;
  let target_process := argmax_label process in
  brew <- Dict.getitem "brew" scores ;;
  let target_brew := argmax_label brew in
  bean <- Dict.getitem "bean_pref" scores ;;
  let bean_pref := argmax_label bean in
  let bean_pref :=
    if String.eqb (UserPref.caffeine_sensitivity user) "high"
       && label_is bean_pref "robusta"
    then Some "arabica" else bean_pref in
  let bean_pref :=
    if String.eqb (UserPref.stomach_sensitivity user) "high"
       && label_is bean_pref "robusta"
    then Some "arabica" else bean_pref in
  Ok (Output.Build
        (Profile.Build target_acidity target_caffeine target_roast
           target_flavor target_process target_brew bean_pref)
        scores
        (top_reasons reasons 4)
        DISCLAIMER).

(* ================================================================== *)
(** ** Vocabulary of the specification *)

(** The score of one (dimension, label) entry, if the scoreboard has it. *)
Definition score_at (s : scoreboard) (dim label : string) : option Z :=
  match Dict.getitem dim s with
  | Ok row =>
      match Dict.getitem label row with
      | Ok v => Some v
      | KeyError _ => None
      end
  | KeyError _ => None
  end.

(** The delta that a delta-set names for (dimension, label), if any. *)
Definition delta_at (deltas : Dict.t (Dict.t Z)) (dim label : string)
  : option Z :=
  score_at deltas dim label.

(** Everything that the entries of [changes] add to [label]. *)
Fixpoint changes_total (changes : Dict.t Z) (label : string) : Z :=
  match changes with
  | [] => 0
  | (l, delta) :: rest =>
      (if String.eqb label l then delta else 0) + changes_total rest label
  end.

(** Everything that the entries of a delta-set add to (dim, label). *)
Fixpoint delta_total (deltas : Dict.t (Dict.t Z)) (dim label : string) : Z :=
  match deltas with
  | [] => 0
  | (d, changes) :: rest =>
      (if String.eqb dim d then changes_total changes label else 0)
      + delta_total rest dim label
  end.

(** The dimensions of a scoreboard with the labels of each, in order. *)
Definition skeleton (s : scoreboard) : list (string * list string) :=
  map (fun e => (fst e, Dict.keys (snd e))) s.

Definition BEAN_PREF : list string := ["arabica"; "blend"; "robusta"].

Definition canonical_skeleton : list (string * list string) :=
  [ ("acidity", ACIDITY); ("caffeine", CAFFEINE); ("roast", ROAST);
    ("flavor", FLAVOR); ("process", PROCESS); ("brew", BREW);
    ("bean_pref", BEAN_PREF) ].

(** A scoreboard laid out as [init_scoreboard] lays it out. *)
Definition board (acidity caffeine roast flavor process brew bean : score_map)
  : scoreboard :=
  [ ("acidity", acidity); ("caffeine", caffeine); ("roast", roast);
    ("flavor", flavor); ("process", process); ("brew", brew);
    ("bean_pref", bean) ].

(** The rules that answer to a single-choice field. *)
Definition field_rules (field_name : string) : Dict.t Rule :=
  Dict.get field_name RULES [].

(** No answer of [user] has a rule: neither a single-choice value in the
    rules of its field nor a flavor in the flavor rules. *)
Definition no_rule_matches (user : UserPref.t) : Prop :=
  Dict.contains (UserPref.stomach_sensitivity user)
    (field_rules "stomach_sensitivity") = false /\
  Dict.contains (UserPref.caffeine_sensitivity user)
    (field_rules "caffeine_sensitivity") = false /\
  Dict.contains (UserPref.time_of_day user) (field_rules "time_of_day") = false /\
  Dict.contains (UserPref.purpose user) (field_rules "purpose") = false /\
  Dict.contains (UserPref.brew_method user) (field_rules "brew_method") = false /\
  Forall (fun f => Dict.contains f FLAVOR_RULES = false)
    (UserPref.flavor_direction user).

(** [user] with another list of flavor directions. *)
Definition with_flavors (user : UserPref.t) (fs : list string) : UserPref.t :=
  UserPref.Build
    (UserPref.stomach_sensitivity user) (UserPref.caffeine_sensitivity user)
    (UserPref.time_of_day user) (UserPref.purpose user) fs
    (UserPref.brew_method user).

(** Descending by priority. *)
Definition priority_ge (a b : string * Z) : Prop := snd a >= snd b.

(** The entries of priority [p], in the order of the list. *)
Definition of_priority (p : Z) (l : list (string * Z)) : list (string * Z) :=
  filter (fun e => snd e =? p) l.

Definition entry_eq_dec (a b : string * Z) : {a = b} + {a <> b}.
Proof. decide equality; [apply Z.eq_dec | apply string_dec]. Defined.

(** What firing the rule of [value] in [table] does: the total it adds to
    (dim, label) and the explanation entries it records; nothing when the
    table has no rule for [value]. *)
Definition rule_delta (table : Dict.t Rule) (value dim label : string) : Z :=
  match Dict.getitem value table with
  | Ok (deltas, _, _) => delta_total deltas dim label
  | KeyError _ => 0
  end.

Definition rule_reason (table : Dict.t Rule) (value : string)
  : list (string * Z) :=
  match Dict.getitem value table with
  | Ok (_, reason, r_weight) => [(reason, r_weight)]
  | KeyError _ => []
  end.

Definition flavor_delta : string -> string -> string -> Z :=
  rule_delta FLAVOR_RULES.
Definition flavor_reason : string -> list (string * Z) :=
  rule_reason FLAVOR_RULES.

Definition field_delta (fv : string * string) : string -> string -> Z :=
  rule_delta (field_rules (fst fv)) (snd fv).
Definition field_reason (fv : string * string) : list (string * Z) :=
  rule_reason (field_rules (fst fv)) (snd fv).

Definition Zsum (l : list Z) : Z := fold_right Z.add 0 l.

(** The total that the answers [xs] add to (dim, label), each
    occurrence counted. *)
Definition total_delta {A : Type} (D : A -> string -> string -> Z)
  (xs : list A) (dim label : string) : Z :=
  Zsum (map (fun x => D x dim label) xs).

(** The bean preference after the two overrides of [build_profile]. *)
Definition overridden (user : UserPref.t) (bean_pref : option string)
  : option string :=
  let bean_pref :=
    if String.eqb (UserPref.caffeine_sensitivity user) "high"
       && label_is bean_pref "robusta"
    then Some "arabica" else bean_pref in
  if String.eqb (UserPref.stomach_sensitivity user) "high"
     && label_is bean_pref "robusta"
  then Some "arabica" else bean_pref.

(** [k] is the first label of [m] that carries the highest score: every
    entry in front of it scores strictly less, no entry behind it scores
    more. *)
Definition first_maximum (m : score_map) (k : string) : Prop :=
  exists before v after,
    m = before ++ (k, v) :: after /\
    Forall (fun e => snd e < v) before /\
    Forall (fun e => snd e <= v) after.

(** The explanation entries that the rules of a table can record. *)
Definition table_reasons (table : Dict.t Rule) : list (string * Z) :=
  map (fun e => (snd (fst (snd e)), snd (snd e))) table.

Definition single_choice_reasons : list (string * Z) :=
  flat_map (fun e => table_reasons (snd e)) RULES.

Definition scenarioA : UserPref.t :=
  UserPref.Build "high" "high" "evening" "calm" ["floral"] "filter".

Definition sample_deltas : Dict.t (Dict.t Z) :=
  [ ("acidity", [("low", 4); ("sour", 9)]); ("body", [("full", 2)]) ].

(** A scoreboard that is a Python dict of Python dicts: no dimension
    and no label of a dimension occurs twice. *)
Definition WfBoard (s : scoreboard) : Prop :=
  WfDict s /\ Forall (fun e => WfDict (snd e)) s.

(** The delta-set with every delta negated. *)
Definition negate_deltas (deltas : Dict.t (Dict.t Z)) : Dict.t (Dict.t Z) :=
  map (fun e => (fst e, map (fun c => (fst c, - snd c)) (snd e))) deltas.

(** [argmax_label(scores[dim])], [None] when there is no such row. *)
Definition resolved (s : scoreboard) (dim : string) : option string :=
  match Dict.getitem dim s with
  | Ok row => argmax_label row
  | KeyError _ => None
  end.

(** No rule of the table has deltas for dimension [dim]. *)
Definition table_silent (table : Dict.t Rule) (dim : string) : bool :=
  forallb (fun e => negb (Dict.contains dim (fst (fst (snd e))))) table.

(** The answers that have a rule: the single-choice (field, value) pairs
    and the flavors, each occurrence kept. *)
Definition known_answers (user : UserPref.t) : list (string * string) :=
  filter (fun fv => Dict.contains (snd fv) (field_rules (fst fv)))
    (single_choice_fields user).

Definition known_flavors (fs : list string) : list string :=
  filter (fun f => Dict.contains f FLAVOR_RULES) fs.

(** Two values of a field that the engine cannot tell apart: the same
    value, or two values without a rule. *)
Definition same_or_unknown (table : Dict.t Rule) (v1 v2 : string) : Prop :=
  v1 = v2 \/ (Dict.contains v1 table = false /\ Dict.contains v2 table = false).

(** Everything the answers of [user] add to (dim, label): the deltas of
    the rule of each single-choice answer and of each flavor occurrence. *)
Definition answers_total (user : UserPref.t) (dim label : string) : Z :=
  total_delta field_delta (single_choice_fields user) dim label
  + total_delta flavor_delta (UserPref.flavor_direction user) dim label.

(** The (text, priority) entries that the two loops collect, in order. *)
Definition collected_reasons (user : UserPref.t) : list (string * Z) :=
  flat_map field_reason (single_choice_fields user)
  ++ flat_map flavor_reason (UserPref.flavor_direction user).

(** The scoreboard with the canonical keys whose every score is the
    total that the answers add to it. *)
Definition expected_scores (user : UserPref.t) : scoreboard :=
  map (fun e => (fst e, map (fun l => (l, answers_total user (fst e) l)) (snd e)))
    canonical_skeleton.

(** [label] is a string, one of [labels]. *)
Definition label_in (label : option string) (labels : list string) : Prop :=
  exists l, label = Some l /\ In l labels.

(** The single-choice answers whose field has a rule with deltas for
    dimension [dim]. *)
Definition touching (dim : string) (fvs : list (string * string))
  : list (string * string) :=
  filter (fun fv => negb (table_silent (field_rules (fst fv)) dim)) fvs.

(* ================================================================== *)
(** ** The cell helpers of the cleaning pipeline (data_pipeline.py)

    [clean_price], [clean_text] and [is_coffee_product] work on one cell
    of the table: a Python [str], or a missing value (NaN), which is
    [None] here.  A [str] is the list of its code points.  The class of
    whitespace characters behind [\s] and [str.strip] is fixed on ASCII
    and left open beyond it; [str.lower] is left open; the digit limit
    of [int] (0: no limit, otherwise 640 or more) is a parameter. *)

Module Pipeline.

Definition pystr : Type := list N.

(** An ASCII literal as a Python [str]. *)
Definition of_string (s : string) : pystr :=
  map N_of_ascii (list_ascii_of_string s).

(** [[0-9]] *)
Definition is_digit (c : N) : bool := (48 <=? c)%N && (c <=? 57)%N.

Section Cells.

(** Whitespace beyond ASCII. *)
Variable unicode_space : N -> bool.
(** [str.lower] *)
Variable lower : pystr -> pystr.
(** [sys.get_int_max_str_digits()] *)
Variable max_str_digits : nat.

(** [c.isspace()]: tab to carriage return, the separators 0x1C to 0x1F
    and the space on ASCII. *)
Definition isspace (c : N) : bool :=
  if (c <? 128)%N
  then ((9 <=? c)%N && (c <=? 13)%N) || ((28 <=? c)%N && (c <=? 31)%N)
       || (c =? 32)%N
  else unicode_space c.

(** The value of a string of ASCII digits, read in base ten. *)
Definition decimal (digits : pystr) : Z :=
  fold_left (fun acc c => 10 * acc + Z.of_N (c - 48)) digits 0.

(** [int(s)] for a string [s] of ASCII digits; [None] is the
    [ValueError] raised for the empty string and for a string with more
    digits than the limit. *)
Definition int_of_digits (s : pystr) : option Z :=
  if Nat.eqb (List.length s) 0 then None
  else if negb (Nat.eqb max_str_digits 0)
          && Nat.ltb max_str_digits (List.length s)
  then None
  else Some (decimal s).

(** [clean_price(price_str)]; [None] is NaN. *)
Definition clean_price (price_str : option pystr) : option Z :=
  match price_str with
  | None => None
  | Some price_str =>
      (* re.sub(r'[Rp\s.]', '', price_str) *)
      let price_clean :=
        filter (fun c => negb ((c =? 82)%N || (c =? 112)%N || isspace c
                               || (c =? 46)%N)) price_str in
      (* re.sub(r'[^0-9,]', '', price_clean) *)
      let price_clean :=
        filter (fun c => is_digit c || (c =? 44)%N) price_clean in
      (* price_clean.replace(',', '') *)
      let price_clean := filter (fun c => negb (c =? 44)%N) price_clean in
      (* try: return int(price_clean)  except: return np.nan *)
      int_of_digits price_clean
  end.

(** [re.sub(r'\s+', ' ', text)]: every maximal run of whitespace becomes
    one space; [in_run] says that the run has begun. *)
Fixpoint collapse_spaces (in_run : bool) (text : pystr) : pystr :=
  match text with
  | [] => []
  | c :: rest =>
      if isspace c
      then if in_run then collapse_spaces true rest
           else 32%N :: collapse_spaces true rest
      else c :: collapse_spaces false rest
  end.

Fixpoint lstrip (text : pystr) : pystr :=
  match text with
  | [] => []
  | c :: rest => if isspace c then lstrip rest else text
  end.

Fixpoint rstrip (text : pystr) : pystr :=
  match text with
  | [] => []
  | c :: rest =>
      match rstrip rest with
      | [] => if isspace c then [] else [c]
      | kept => c :: kept
      end
  end.

(** [text.strip()] *)
Definition strip (text : pystr) : pystr := rstrip (lstrip text).

(** [clean_text(text)]: a missing value is handed back. *)
Definition clean_text (text : option pystr) : option pystr :=
  match text with
  | None => None
  | Some text => Some (strip (collapse_spaces false text))
  end.

(** [keyword in name]: the keyword occurs at the front or further on. *)
Fixpoint starts_with (keyword name : pystr) : bool :=
  match keyword, name with
  | [], _ => true
  | _ :: _, [] => false
  | a :: keyword', b :: name' => (a =? b)%N && starts_with keyword' name'
  end.

Fixpoint occurs_in (keyword name : pystr) : bool :=
  starts_with keyword name
  || match name with
     | [] => false
     | _ :: name' => occurs_in keyword name'
     end.

Definition coffee_keywords : list pystr :=
  map of_string
    [ "kopi"; "coffee"; "arabica"; "robusta"; "espresso"; "beans"; "biji";
      "ethiopia"; "gayo"; "toraja"; "aceh"; "sumatra"; "java"; "bali";
      "colombia"; "brazil"; "kenya"; "flores"; "washed"; "natural"; "honey";
      "blend"; "single origin"; "roast"; "gram"; "kg"; "filter"; "drip";
      "anaerobic"; "carbonic"; "maceration"; "wet hulled"; "decaf" ].

Definition non_coffee_keywords : list pystr :=
  map of_string
    [ "kaos"; "tshirt"; "t-shirt"; "shirt"; "baju"; "apparel"; "jersey";
      "hoodie"; "jacket"; "denim"; "topi"; "cap"; "hat";
      "tas"; "bag"; "tote"; "sling"; "backpack";
      "dompet"; "wallet"; "pouch";
      "gelas"; "cup"; "mug"; "tumbler"; "glass"; "server"; "dripper";
      "coaster"; "tatakan";
      "sticker"; "stiker"; "keychain"; "gantungan";
      "tools"; "brewing"; "origami"; "filter paper"; "holder";
      "gift card"; "voucher"; "merchandise" ].

(** [is_coffee_product(product_name)]: each loop returns at the first
    keyword that occurs in the lowered name. *)
Definition is_coffee_product (product_name : option pystr) : bool :=
  match product_name with
  | None => false
  | Some product_name =>
      let name_lower := lower product_name in
      if existsb (fun keyword => occurs_in keyword name_lower)
           non_coffee_keywords
      then false
      else if existsb (fun keyword => occurs_in keyword name_lower)
                coffee_keywords
      then true
      else true
  end.

(** The ASCII digits of a string, in order. *)
Definition digits_of (s : pystr) : pystr := filter is_digit s.

(** Every whitespace character is a space, and no two are adjacent;
    [after_space] says that the character in front was one. *)
Fixpoint single_spaced (after_space : bool) (text : pystr) : bool :=
  match text with
  | [] => true
  | c :: rest =>
      if isspace c
      then (c =? 32)%N && negb after_space && single_spaced true rest
      else single_spaced false rest
  end.

End Cells.

End Pipeline.

(* ================================================================== *)
(** ** The engine with its objects in a store

    Python dicts are objects: [RULES] and [FLAVOR_RULES] are built once,
    when the module is loaded, and stay in memory between calls, and
    [apply_delta] writes into the dict object it is handed.  The only
    store that the module performs on a dict is
    [scores[dim][label] += delta], into a row of a scoreboard; the
    rows, and the rows of the delta-sets, are therefore kept in a heap
    and named by address, and the dicts that hold them map a key to an
    address.  A new object gets the next free address.  The values
    computed are those of the functions above; the store shows which
    objects a call reads and writes.

    The module imports [dataclasses] and [typing] only and calls no
    function of the environment (no clock, no random source, no file),
    and a dict is read in insertion order; so what a call can depend on
    besides its argument is this world.  The [UserPref] argument is only
    read, attribute by attribute, and the [reasons] list is created by
    the call and sorted into a new list: both are values here. *)

Module Store.

Definition addr : Type := nat.

(** The dict objects of type [Dict[str, int]], by address. *)
Definition heap : Type := list (Dict.t Z).

(** The object at an address; every address in use is allocated. *)
Definition read (h : heap) (a : addr) : Dict.t Z := nth a h [].

Fixpoint write (h : heap) (a : addr) (d : Dict.t Z) : heap :=
  match h, a with
  | [], _ => []
  | _ :: rest, O => d :: rest
  | x :: rest, S a' => x :: write rest a' d
  end.

Definition alloc (h : heap) (d : Dict.t Z) : heap * addr :=
  (h ++ [d], List.length h).

(** A rule whose delta-set refers to its rows. *)
Definition rule_ref : Type := (Dict.t addr * string * Z)%type.

(** What the module holds between calls: the heap and the two
    module-level names. *)
Record world : Type := World {
  w_heap : heap;
  w_RULES : Dict.t (Dict.t rule_ref);
  w_FLAVOR_RULES : Dict.t rule_ref
}.

(** Loading the module evaluates the two dict displays: every inner
    [{label: delta, ...}] becomes an object, in the order written. *)
Fixpoint load_deltas (h : heap) (deltas : Dict.t (Dict.t Z))
  : heap * Dict.t addr :=
  match deltas with
  | [] => (h, [])
  | (dim, changes) :: rest =>
      let (h1, a) := alloc h changes in
      let (h2, refs) := load_deltas h1 rest in
      (h2, (dim, a) :: refs)
  end.

Definition load_rule (h : heap) (r : Rule) : heap * rule_ref :=
  let '(deltas, reason, r_weight) := r in
  let (h', refs) := load_deltas h deltas in
  (h', (refs, reason, r_weight)).

Fixpoint load_table (h : heap) (table : Dict.t Rule)
  : heap * Dict.t rule_ref :=
  match table with
  | [] => (h, [])
  | (value, r) :: rest =>
      let (h1, r') := load_rule h r in
      let (h2, table') := load_table h1 rest in
      (h2, (value, r') :: table')
  end.

Fixpoint load_rules (h : heap) (rules : Dict.t (Dict.t Rule))
  : heap * Dict.t (Dict.t rule_ref) :=
  match rules with
  | [] => (h, [])
  | (field_name, table) :: rest =>
      let (h1, table') := load_table h table in
      let (h2, rules') := load_rules h1 rest in
      (h2, (field_name, table') :: rules')
  end.

Definition load_module : world :=
  let (h1, rules) := load_rules [] RULES in
  let (h2, flavor_rules) := load_table h1 FLAVOR_RULES in
  World h2 rules flavor_rules.

(** [init_scoreboard()]: seven new row objects. *)
Definition init_scoreboard (h : heap) : heap * Dict.t addr :=
  let (h, acidity) := alloc h (zero_scores ACIDITY) in
  let (h, caffeine) := alloc h (zero_scores CAFFEINE) in
  let (h, roast) := alloc h (zero_scores ROAST) in
  let (h, flavor) := alloc h (zero_scores FLAVOR) in
  let (h, process) := alloc h (zero_scores PROCESS) in
  let (h, brew) := alloc h (zero_scores BREW) in
  let (h, bean_pref) :=
    alloc h [("arabica", 0); ("blend", 0); ("robusta", 0)] in
  (h, [ ("acidity", acidity); ("caffeine", caffeine); ("roast", roast);
        ("flavor", flavor); ("process", process); ("brew", brew);
        ("bean_pref", bean_pref) ]).

(** The inner loop of [apply_delta]: the store goes into the object
    that [scores[dim]] refers to. *)
Fixpoint apply_changes (h : heap) (scores : Dict.t addr) (dim : string)
    (changes : list (string * Z)) : result heap :=
  match changes with
  | [] => Ok h
  | (label, delta) :: rest =>
      row <- Dict.getitem dim scores ;;
      if Dict.contains label (read h row) then
        old <- Dict.getitem label (read h row) ;;
        apply_changes
          (write h row (Dict.setitem label (old + delta) (read h row)))
          scores dim rest
      else apply_changes h scores dim rest
  end.

(** [apply_delta(scores, deltas)]; [changes.items()] is read when the
    inner loop starts. *)
Fixpoint apply_delta (h : heap) (scores : Dict.t addr) (deltas : Dict.t addr)
  : result heap :=
  match deltas with
  | [] => Ok h
  | (dim, changes) :: rest =>
      if negb (Dict.contains dim scores) then apply_delta h scores rest
      else
        h' <- apply_changes h scores dim (read h changes) ;;
        apply_delta h' scores rest
  end.

(** The loop bodies of [build_profile]; [scores] names the same
    scoreboard throughout, the heap and [reasons] change. *)
Definition single_choice_step (w : world) (scores : Dict.t addr)
    (st : heap * list (string * Z)) (fv : string * string)
  : result (heap * list (string * Z)) :=
  let '(h, reasons) := st in
  let '(field_name, value) := fv in
  let field_rules := Dict.get field_name (w_RULES w) [] in
  if negb (Dict.contains value field_rules) then Ok st
  else
    ' (deltas, reason, r_weight) <- Dict.getitem value field_rules ;;
    h' <- apply_delta h scores deltas ;;
    Ok (h', reasons ++ [(reason, r_weight)]).

Definition flavor_step (w : world) (scores : Dict.t addr)
    (st : heap * list (string * Z)) (f : string)
  : result (heap * list (string * Z)) :=
  let '(h, reasons) := st in
  if negb (Dict.contains f (w_FLAVOR_RULES w)) then Ok st
  else
    ' (deltas, reason, r_weight) <- Dict.getitem f (w_FLAVOR_RULES w) ;;
    h' <- apply_delta h scores deltas ;;
    Ok (h', reasons ++ [(reason, r_weight)]).

(** The dict that [build_profile] returns: ["scores"] is the scoreboard
    object itself. *)
Record output : Type := Output {
  o_profile : Profile.t;
  o_scores : Dict.t addr;
  o_reasons : list string;
  o_disclaimer : string
}.

(** [build_profile(user)] in a world; it returns the world it leaves. *)
Definition build_profile (w : world) (user : UserPref.t)
  : result (output * world) :=
  let (h, scores) := init_scoreboard (w_heap w) in
  st <- for_each (single_choice_step w scores) (single_choice_fields user)
          (h, []) ;;
  ' (h, reasons) <- for_each (flavor_step w scores)
                      (UserPref.flavor_direction user) st ;;
  acidity <- Dict.getitem "acidity" scores ;;
  let target_acidity := argmax_label (read h acidity) in
  caffeine <- Dict.getitem "caffeine" scores ;;
  let target_caffeine := argmax_label (read h caffeine) in
  roast <- Dict.getitem "roast" scores ;;
  let target_roast := argmax_label (read h roast) in
  flavor <- Dict.getitem "flavor" scores ;;
  let target_flavor := argmax_label (read h flavor) in
  process <- Dict.getitem "process" scores ;;
  let target_process := argmax_label (read h process) in
  brew <- Dict.getitem "brew" scores ;;
  let target_brew := argmax_label (read h brew) in
  bean <- Dict.getitem "bean_pref" scores ;;
  let bean_pref := argmax_label (read h bean) in
  let bean_pref :=
    if String.eqb (UserPref.caffeine_sensitivity user) "high"
       && label_is bean_pref "robusta"
    then Some "arabica" else bean_pref in
  let bean_pref :=
    if String.eqb (UserPref.stomach_sensitivity user) "high"
       && label_is bean_pref "robusta"
    then Some "arabica" else bean_pref in
  Ok (Output
        (Profile.Build target_acidity target_caffeine target_roast
           target_flavor target_process target_brew bean_pref)
        scores
        (top_reasons reasons 4)
        DISCLAIMER,
      World h (w_RULES w) (w_FLAVOR_RULES w)).

(** Calls of [build_profile] one after the other, each in the world that
    the one before left; their results are dropped. *)
Fixpoint run_calls (w : world) (users : list UserPref.t) : result world :=
  match users with
  | [] => Ok w
  | user :: rest =>
      r <- build_profile w user ;;
      run_calls (snd r) rest
  end.

(** What a dict of references shows in a heap. *)
Definition view (h : heap) (refs : Dict.t addr) : Dict.t (Dict.t Z) :=
  map (fun e => (fst e, read h (snd e))) refs.

Definition view_rule (h : heap) (r : rule_ref) : Rule :=
  (view h (fst (fst r)), snd (fst r), snd r).

Definition view_table (h : heap) (table : Dict.t rule_ref) : Dict.t Rule :=
  map (fun e => (fst e, view_rule h (snd e))) table.

Definition view_rules (h : heap) (rules : Dict.t (Dict.t rule_ref))
  : Dict.t (Dict.t Rule) :=
  map (fun e => (fst e, view_table h (snd e))) rules.

(** What a caller sees of a returned dict when it reads it in heap
    [h]. *)
Definition observe (h : heap) (out : output) : Output.t :=
  Output.Build (o_profile out) (view h (o_scores out)) (o_reasons out)
    (o_disclaimer out).

(** The addresses that the catalog of a world refers to. *)
Definition refs_of_table (table : Dict.t rule_ref) : list addr :=
  flat_map (fun e => map snd (fst (fst (snd e)))) table.

Definition refs_of_world (w : world) : list addr :=
  flat_map (fun e => refs_of_table (snd e)) (w_RULES w)
  ++ refs_of_table (w_FLAVOR_RULES w).

(** A world in which the catalog is what the module was loaded with:
    its rows are allocated and hold the deltas of the source. *)
Definition loaded (w : world) : Prop :=
  Forall (fun a => (a < List.length (w_heap w))%nat) (refs_of_world w) /\
  view_rules (w_heap w) (w_RULES w) = RULES /\
  view_table (w_heap w) (w_FLAVOR_RULES w) = FLAVOR_RULES.

(** The heaps that a call started in world [w] goes through once its
    scoreboard is allocated: they have [n] objects, and the objects that
    were there before the call are as they were. *)
Definition during (w : world) (n : nat) (h : heap) : Prop :=
  List.length h = n /\
  forall a, (a < List.length (w_heap w))%nat -> read h a = read (w_heap w) a.

End Store.

(** Two answer sets with the same field values. *)
Definition same_answers (u1 u2 : UserPref.t) : Prop :=
  UserPref.stomach_sensitivity u1 = UserPref.stomach_sensitivity u2 /\
  UserPref.caffeine_sensitivity u1 = UserPref.caffeine_sensitivity u2 /\
  UserPref.time_of_day u1 = UserPref.time_of_day u2 /\
  UserPref.purpose u1 = UserPref.purpose u2 /\
  UserPref.flavor_direction u1 = UserPref.flavor_direction u2 /\
  UserPref.brew_method u1 = UserPref.brew_method u2.

(* ================================================================== *)
(** ** Dictionaries *)

Section DictFacts.
Context {V : Type}.
Implicit Types (d : Dict.t V) (k : string) (v : V).

Lemma contains_true_getitem d k :
  Dict.contains k d = true -> exists v, Dict.getitem k d = Ok v.
Proof.
  induction d as [| [k' v'] d IH]; simpl; [discriminate |].
  destruct (String.eqb k k'); eauto.
Qed.

Lemma contains_false_getitem d k :
  Dict.contains k d = false -> Dict.getitem k d = KeyError k.
Proof.
  induction d as [| [k' v'] d IH]; simpl; [reflexivity |].
  destruct (String.eqb k k'); [discriminate | assumption].
Qed.

Lemma getitem_Ok_contains d k v :
  Dict.getitem k d = Ok v -> Dict.contains k d = true.
Proof.
  induction d as [| [k' v'] d IH]; simpl; [discriminate |].
  destruct (String.eqb k k'); auto.
Qed.

Lemma getitem_Ok_In d k v : Dict.getitem k d = Ok v -> In (k, v) d.
Proof.
  induction d as [| [k' v'] d IH]; simpl; [discriminate |].
  destruct (String.eqb_spec k k') as [-> | _].
  - intros [= ->]. now left.
  - intros H. right. now apply IH.
Qed.

Lemma contains_In_keys d k :
  Dict.contains k d = true <-> In k (Dict.keys d).
Proof.
  induction d as [| [k' v'] d IH]; simpl.
  - split; [discriminate | contradiction].
  - destruct (String.eqb_spec k k') as [-> | Hne].
    + split; auto.
    + rewrite IH. split; [auto | intros [E | H]; [congruence | exact H]].
Qed.

Lemma getitem_setitem_same d k v :
  Dict.getitem k (Dict.setitem k v d) = Ok v.
Proof.
  induction d as [| [k' v'] d IH]; simpl.
  - now rewrite String.eqb_refl.
  - destruct (String.eqb k k') eqn:E; simpl; rewrite E; auto.
Qed.

Lemma getitem_setitem_other d k k' v :
  k' <> k -> Dict.getitem k' (Dict.setitem k v d) = Dict.getitem k' d.
Proof.
  intros Hne. induction d as [| [k0 v0] d IH]; simpl.
  - destruct (String.eqb_spec k' k); [contradiction | reflexivity].
  - destruct (String.eqb_spec k k0) as [-> | Hk]; simpl.
    + destruct (String.eqb_spec k' k0); [contradiction | reflexivity].
    + destruct (String.eqb k' k0); auto.
Qed.

Lemma keys_setitem d k v :
  Dict.contains k d = true -> Dict.keys (Dict.setitem k v d) = Dict.keys d.
Proof.
  induction d as [| [k' v'] d IH]; simpl; [discriminate |].
  destruct (String.eqb k k'); simpl; [reflexivity |].
  intros H. now rewrite (IH H).
Qed.

End DictFacts.

(* ================================================================== *)
(** ** Delta application *)

Lemma skeleton_setitem (s : scoreboard) dim row row' :
  Dict.getitem dim s = Ok row ->
  Dict.keys row' = Dict.keys row ->
  skeleton (Dict.setitem dim row' s) = skeleton s.
Proof.
  intros Hget Hkeys. induction s as [| [d0 r0] s IH]; simpl in *.
  - discriminate.
  - destruct (String.eqb dim d0); simpl.
    + injection Hget as ->. now rewrite Hkeys.
    + now rewrite IH.
Qed.

Lemma score_at_setitem (s : scoreboard) dim row' d l :
  score_at (Dict.setitem dim row' s) d l =
  if String.eqb d dim
  then match Dict.getitem l row' with Ok v => Some v | KeyError _ => None end
  else score_at s d l.
Proof.
  unfold score_at. destruct (String.eqb_spec d dim) as [-> | Hne].
  - now rewrite getitem_setitem_same.
  - now rewrite getitem_setitem_other.
Qed.

Lemma score_at_row (s : scoreboard) dim row l :
  Dict.getitem dim s = Ok row ->
  score_at s dim l =
  match Dict.getitem l row with Ok v => Some v | KeyError _ => None end.
Proof. unfold score_at. now intros ->. Qed.

(** One pass of the inner loop: it never raises, keeps every key where it
    is and adds to each label of [dim] what [changes] says about it. *)
Lemma apply_changes_spec dim changes :
  forall s : scoreboard,
    Dict.contains dim s = true ->
    exists s',
      apply_changes dim changes s = Ok s' /\
      skeleton s' = skeleton s /\
      forall d l,
        score_at s' d l =
        option_map
          (fun v => v + (if String.eqb d dim then changes_total changes l else 0))
          (score_at s d l).
Proof.
  induction changes as [| [label delta] rest IH]; intros s Hdim.
  - exists s. repeat split; auto. intros d l.
    destruct (score_at s d l); simpl; [| reflexivity].
    destruct (String.eqb d dim); f_equal; lia.
  - destruct (contains_true_getitem _ _ Hdim) as [row Hrow].
    simpl. rewrite Hrow. simpl.
    destruct (Dict.contains label row) eqn:Hlab.
    + destruct (contains_true_getitem _ _ Hlab) as [old Hold].
      rewrite Hold. simpl.
      set (row' := Dict.setitem label (old + delta) row).
      assert (Hdim' : Dict.contains dim (Dict.setitem dim row' s) = true)
        by (eapply getitem_Ok_contains, getitem_setitem_same).
      destruct (IH _ Hdim') as (s' & Hrun & Hskel & Hscore).
      exists s'. split; [exact Hrun |]. split.
      * rewrite Hskel. apply skeleton_setitem with (row := row); auto.
        now apply keys_setitem.
      * intros d l. rewrite Hscore, score_at_setitem.
        destruct (String.eqb_spec d dim) as [-> | Hne].
        -- rewrite (score_at_row _ _ _ l Hrow). unfold row'.
           destruct (String.eqb_spec l label) as [-> | Hl].
           ++ rewrite getitem_setitem_same, Hold. simpl. f_equal. lia.
           ++ rewrite getitem_setitem_other by assumption.
              destruct (Dict.getitem l row); simpl; [f_equal; lia | reflexivity].
        -- destruct (score_at s d l); reflexivity.
    + destruct (IH _ Hdim) as (s' & Hrun & Hskel & Hscore).
      exists s'. repeat split; auto. intros d l. rewrite Hscore.
      destruct (String.eqb_spec d dim) as [-> | Hne].
      * rewrite (score_at_row _ _ _ l Hrow).
        destruct (String.eqb_spec l label) as [-> | Hl].
        -- now rewrite (contains_false_getitem _ _ Hlab).
        -- destruct (Dict.getitem l row); simpl; [f_equal; lia | reflexivity].
      * destruct (score_at s d l); reflexivity.
Qed.

Lemma option_map_add (o : option Z) (a b : Z) :
  option_map (fun v => v + b) (option_map (fun v => v + a) o) =
  option_map (fun v => v + (a + b)) o.
Proof. destruct o; simpl; [f_equal; lia | reflexivity]. Qed.

(** [apply_delta] never raises, keeps every key where it is and adds to
    each existing entry the total that the delta-set names for it. *)
Lemma apply_delta_sum deltas :
  forall s : scoreboard,
    exists s',
      apply_delta s deltas = Ok s' /\
      skeleton s' = skeleton s /\
      forall d l,
        score_at s' d l =
        option_map (fun v => v + delta_total deltas d l) (score_at s d l).
Proof.
  induction deltas as [| [dim changes] rest IH]; intros s.
  - exists s. repeat split; auto. intros d l.
    destruct (score_at s d l); simpl; [f_equal; lia | reflexivity].
  - simpl. destruct (Dict.contains dim s) eqn:Hdim; simpl.
    + destruct (apply_changes_spec dim changes s Hdim) as (s1 & Hrun1 & Hsk1 & Hsc1).
      rewrite Hrun1. simpl.
      destruct (IH s1) as (s' & Hrun & Hsk & Hsc).
      exists s'. split; [exact Hrun |]. split; [congruence |].
      intros d l. rewrite Hsc, Hsc1. apply option_map_add.
    + destruct (IH s) as (s' & Hrun & Hsk & Hsc).
      exists s'. repeat split; auto. intros d l. rewrite Hsc.
      destruct (String.eqb_spec d dim) as [-> | Hne];
        [| destruct (score_at s d l); reflexivity].
      unfold score_at. now rewrite (contains_false_getitem _ _ Hdim).
Qed.

(** In a well-formed delta-set the total for an entry is the one delta
    named for it, or nothing. *)
Lemma changes_total_absent (changes : Dict.t Z) l :
  Dict.contains l changes = false -> changes_total changes l = 0.
Proof.
  induction changes as [| [l' v] rest IH]; simpl; [reflexivity |].
  destruct (String.eqb l l'); [discriminate |]. intros H. now rewrite IH.
Qed.

Lemma changes_total_wf (changes : Dict.t Z) l :
  WfDict changes ->
  changes_total changes l =
  match Dict.getitem l changes with Ok v => v | KeyError _ => 0 end.
Proof.
  unfold WfDict. induction changes as [| [l' v] rest IH]; simpl; [reflexivity |].
  intros Hnd. inversion Hnd as [| ? ? Hnotin Hnd']; subst.
  destruct (String.eqb_spec l l') as [-> | Hne].
  - rewrite changes_total_absent; [lia |].
    destruct (Dict.contains l' rest) eqn:E; [| reflexivity].
    apply contains_In_keys in E. contradiction.
  - now rewrite IH.
Qed.

Lemma delta_total_absent (deltas : Dict.t (Dict.t Z)) d l :
  Dict.contains d deltas = false -> delta_total deltas d l = 0.
Proof.
  induction deltas as [| [d' ch] rest IH]; simpl; [reflexivity |].
  destruct (String.eqb d d'); [discriminate |]. intros H. now rewrite IH.
Qed.

Lemma delta_total_wf (deltas : Dict.t (Dict.t Z)) d l :
  WfDict deltas ->
  (forall dim changes, In (dim, changes) deltas -> WfDict changes) ->
  delta_total deltas d l =
  match delta_at deltas d l with Some v => v | None => 0 end.
Proof.
  unfold WfDict, delta_at, score_at.
  induction deltas as [| [d' ch] rest IH]; simpl; [reflexivity |].
  intros Hnd Hin. inversion Hnd as [| ? ? Hnotin Hnd']; subst.
  destruct (String.eqb_spec d d') as [-> | Hne].
  - rewrite delta_total_absent.
    + rewrite changes_total_wf by (eapply Hin; now left).
      destruct (Dict.getitem l ch); lia.
    + destruct (Dict.contains d' rest) eqn:E; [| reflexivity].
      apply contains_In_keys in E. contradiction.
  - rewrite IH; auto. intros dim changes H. eapply Hin. right. exact H.
Qed.

(* ================================================================== *)
(** ** The two rule loops *)

Lemma for_each_app {A S : Type} (body : S -> A -> result S) xs ys :
  forall st,
    for_each body (xs ++ ys) st =
    (st' <- for_each body xs st ;; for_each body ys st').
Proof.
  induction xs as [| x xs IH]; intros st; simpl; [reflexivity |].
  destruct (body st x); simpl; auto.
Qed.

(** The body shared by both loops, for any rule table: it never raises,
    records the reason of the rule it fires and adds its deltas. *)
Lemma rule_body_spec (table : Dict.t Rule) value (s : scoreboard)
    (rs : list (string * Z)) :
  exists s',
    (if negb (Dict.contains value table) then Ok (s, rs)
     else
       ' (deltas, reason, r_weight) <- Dict.getitem value table ;;
       scores' <- apply_delta s deltas ;;
       Ok (scores', rs ++ [(reason, r_weight)]))
    = Ok (s', rs ++ rule_reason table value) /\
    skeleton s' = skeleton s /\
    (forall d l,
        score_at s' d l =
        option_map (fun v => v + rule_delta table value d l) (score_at s d l)) /\
    (Dict.contains value table = false -> s' = s).
Proof.
  unfold rule_reason, rule_delta.
  destruct (Dict.contains value table) eqn:Hin; cbn [negb].
  - destruct (contains_true_getitem _ _ Hin) as [[[deltas reason] w] Hget].
    rewrite Hget. cbn [bind].
    destruct (apply_delta_sum deltas s) as (s' & Hrun & Hsk & Hsc).
    rewrite Hrun. cbn [bind]. exists s'. repeat split; auto. discriminate.
  - rewrite (contains_false_getitem _ _ Hin). exists s.
    rewrite app_nil_r. repeat split; auto. intros d l.
    destruct (score_at s d l); simpl; [f_equal; lia | reflexivity].
Qed.

Lemma flavor_step_spec (s : scoreboard) rs f :
  exists s',
    flavor_step (s, rs) f = Ok (s', rs ++ flavor_reason f) /\
    skeleton s' = skeleton s /\
    (forall d l,
        score_at s' d l =
        option_map (fun v => v + flavor_delta f d l) (score_at s d l)) /\
    (Dict.contains f FLAVOR_RULES = false -> s' = s).
Proof. exact (rule_body_spec FLAVOR_RULES f s rs). Qed.

Lemma single_choice_step_spec (s : scoreboard) rs fv :
  exists s',
    single_choice_step (s, rs) fv = Ok (s', rs ++ field_reason fv) /\
    skeleton s' = skeleton s /\
    (forall d l,
        score_at s' d l =
        option_map (fun v => v + field_delta fv d l) (score_at s d l)) /\
    (Dict.contains (snd fv) (field_rules (fst fv)) = false -> s' = s).
Proof.
  destruct fv as [field_name value].
  exact (rule_body_spec (field_rules field_name) value s rs).
Qed.

(** A loop of such bodies: the reasons are appended in visiting order,
    the deltas add up, every key stays. *)
Lemma for_each_rules {A : Type}
    (body : engine_state -> A -> result engine_state)
    (R : A -> list (string * Z)) (D : A -> string -> string -> Z) :
  (forall s rs x,
      exists s',
        body (s, rs) x = Ok (s', rs ++ R x) /\
        skeleton s' = skeleton s /\
        forall d l,
          score_at s' d l = option_map (fun v => v + D x d l) (score_at s d l)) ->
  forall xs s rs,
    exists s',
      for_each body xs (s, rs) = Ok (s', rs ++ flat_map R xs) /\
      skeleton s' = skeleton s /\
      forall d l,
        score_at s' d l =
        option_map (fun v => v + total_delta D xs d l) (score_at s d l).
Proof.
  intros Hbody. unfold total_delta.
  induction xs as [| x xs IH]; intros s rs; simpl.
  - exists s. rewrite app_nil_r. repeat split; auto. intros d l.
    destruct (score_at s d l); simpl; [f_equal; lia | reflexivity].
  - destruct (Hbody s rs x) as (s1 & Hrun1 & Hsk1 & Hsc1).
    rewrite Hrun1. cbn [bind].
    destruct (IH s1 (rs ++ R x)) as (s' & Hrun & Hsk & Hsc).
    exists s'. rewrite Hrun, <- app_assoc. split; [reflexivity |].
    split; [congruence |]. intros d l. rewrite Hsc, Hsc1. apply option_map_add.
Qed.

(** Both loops of [build_profile], started on any scoreboard. *)
Lemma loops_spec fvs fs (s : scoreboard) rs :
  exists s',
    (st <- for_each single_choice_step fvs (s, rs) ;;
     for_each flavor_step fs st)
    = Ok (s', rs ++ flat_map field_reason fvs ++ flat_map flavor_reason fs) /\
    skeleton s' = skeleton s /\
    forall d l,
      score_at s' d l =
      option_map
        (fun v => v + (total_delta field_delta fvs d l
                       + total_delta flavor_delta fs d l))
        (score_at s d l).
Proof.
  destruct (for_each_rules single_choice_step field_reason field_delta)
    with (xs := fvs) (s := s) (rs := rs) as (s1 & Hrun1 & Hsk1 & Hsc1).
  { intros s0 rs0 x.
    destruct (single_choice_step_spec s0 rs0 x) as (s' & H1 & H2 & H3 & _).
    eauto. }
  destruct (for_each_rules flavor_step flavor_reason flavor_delta)
    with (xs := fs) (s := s1) (rs := rs ++ flat_map field_reason fvs)
    as (s2 & Hrun2 & Hsk2 & Hsc2).
  { intros s0 rs0 x.
    destruct (flavor_step_spec s0 rs0 x) as (s' & H1 & H2 & H3 & _).
    eauto. }
  exists s2. rewrite Hrun1. cbn [bind]. rewrite Hrun2, <- app_assoc.
  split; [reflexivity |]. split; [congruence |].
  intros d l. rewrite Hsc2, Hsc1. apply option_map_add.
Qed.

Lemma run_rules_spec user :
  exists s,
    run_rules user
    = Ok (s, flat_map field_reason (single_choice_fields user)
             ++ flat_map flavor_reason (UserPref.flavor_direction user)) /\
    skeleton s = canonical_skeleton /\
    forall d l,
      score_at s d l =
      option_map
        (fun v => v + (total_delta field_delta (single_choice_fields user) d l
                       + total_delta flavor_delta
                           (UserPref.flavor_direction user) d l))
        (score_at init_scoreboard d l).
Proof.
  destruct (loops_spec (single_choice_fields user)
              (UserPref.flavor_direction user) init_scoreboard [])
    as (s & Hrun & Hsk & Hsc).
  exists s. split; [exact Hrun |]. split; [| exact Hsc].
  rewrite Hsk. reflexivity.
Qed.

(* ================================================================== *)
(** ** Resolution *)

Lemma skeleton_board (s : scoreboard) :
  skeleton s = canonical_skeleton ->
  exists a c r f p b bp,
    s = board a c r f p b bp /\
    Dict.keys a = ACIDITY /\ Dict.keys c = CAFFEINE /\ Dict.keys r = ROAST /\
    Dict.keys f = FLAVOR /\ Dict.keys p = PROCESS /\ Dict.keys b = BREW /\
    Dict.keys bp = BEAN_PREF.
Proof.
  unfold skeleton, canonical_skeleton. intros H.
  do 7 (destruct s as [| [? ?] s]; [discriminate H |]).
  destruct s; [| discriminate H].
  cbn [map fst snd] in H.
  injection H as -> Ha -> Hc -> Hr -> Hf -> Hp -> Hb -> Hbp.
  do 7 eexists. split; [reflexivity |]. repeat split; assumption.
Qed.

(** [build_profile] once the loops have run: the seven subscriptions
    succeed on a scoreboard that has the seven dimensions. *)
Lemma build_profile_board user a c r f p b bp rs :
  run_rules user = Ok (board a c r f p b bp, rs) ->
  build_profile user =
  Ok (Output.Build
        (Profile.Build (argmax_label a) (argmax_label c) (argmax_label r)
           (argmax_label f) (argmax_label p) (argmax_label b)
           (overridden user (argmax_label bp)))
        (board a c r f p b bp) (top_reasons rs 4) DISCLAIMER).
Proof. unfold build_profile. intros ->. reflexivity. Qed.

(** [build_profile] raises nothing: it returns an output whose
    scoreboard and reasons are those the loops left. *)
Lemma build_profile_total user :
  exists s rs out,
    run_rules user = Ok (s, rs) /\
    build_profile user = Ok out /\
    skeleton s = canonical_skeleton /\
    Output.scores out = s /\
    Output.reasons out = top_reasons rs 4 /\
    Output.disclaimer out = DISCLAIMER /\
    exists bean,
      Dict.getitem "bean_pref" s = Ok bean /\
      Profile.bean_preference (Output.profile out)
      = overridden user (argmax_label bean).
Proof.
  destruct (run_rules_spec user) as (s & Hrun & Hsk & _).
  destruct (skeleton_board s Hsk) as (a & c & r & f & p & b & bp & -> & _).
  eexists _, _, _. split; [exact Hrun |].
  split; [exact (build_profile_board user _ _ _ _ _ _ _ _ Hrun) |].
  repeat split; auto. exists bp. split; reflexivity.
Qed.

Lemma build_profile_ext u1 u2 :
  run_rules u1 = run_rules u2 ->
  UserPref.caffeine_sensitivity u1 = UserPref.caffeine_sensitivity u2 ->
  UserPref.stomach_sensitivity u1 = UserPref.stomach_sensitivity u2 ->
  build_profile u1 = build_profile u2.
Proof. unfold build_profile. intros -> -> ->. reflexivity. Qed.

Lemma label_is_true label s : label_is label s = true <-> label = Some s.
Proof.
  destruct label as [l |]; simpl.
  - rewrite String.eqb_eq. split; congruence.
  - split; discriminate.
Qed.

Lemma overridden_not_robusta user bean_pref :
  UserPref.caffeine_sensitivity user = "high" \/
  UserPref.stomach_sensitivity user = "high" ->
  overridden user bean_pref <> Some "robusta".
Proof.
  unfold overridden. intros Hhigh.
  destruct (label_is bean_pref "robusta") eqn:Hrob.
  - destruct Hhigh as [-> | ->]; rewrite String.eqb_refl; cbn [andb].
    + cbn [label_is]. rewrite andb_false_r. discriminate.
    + destruct (String.eqb (UserPref.caffeine_sensitivity user) "high");
        cbn [andb].
      * cbn [label_is]. change (String.eqb "arabica" "robusta") with false.
        discriminate.
      * rewrite Hrob. discriminate.
  - rewrite andb_false_r, Hrob, andb_false_r. intros E.
    apply label_is_true in E. congruence.
Qed.

(** ** Skipped answers *)

Lemma single_choice_step_skip st field_name value :
  Dict.contains value (field_rules field_name) = false ->
  single_choice_step st (field_name, value) = Ok st.
Proof.
  destruct st as [s rs]. unfold single_choice_step.
  change (Dict.get field_name RULES []) with (field_rules field_name).
  now intros ->.
Qed.

Lemma flavor_step_skip st f :
  Dict.contains f FLAVOR_RULES = false -> flavor_step st f = Ok st.
Proof. destruct st as [s rs]. unfold flavor_step. now intros ->. Qed.

Lemma for_each_flavor_skip fs st :
  Forall (fun f => Dict.contains f FLAVOR_RULES = false) fs ->
  for_each flavor_step fs st = Ok st.
Proof.
  induction 1 as [| f fs Hf _ IH]; cbn [for_each]; [reflexivity |].
  now rewrite (flavor_step_skip st f Hf).
Qed.

Lemma run_rules_no_match user :
  no_rule_matches user -> run_rules user = Ok (init_scoreboard, []).
Proof.
  intros (H1 & H2 & H3 & H4 & H5 & Hfl).
  unfold run_rules, single_choice_fields. cbn [for_each].
  rewrite (single_choice_step_skip _ _ _ H1); cbn [bind].
  rewrite (single_choice_step_skip _ _ _ H2); cbn [bind].
  rewrite (single_choice_step_skip _ _ _ H3); cbn [bind].
  rewrite (single_choice_step_skip _ _ _ H4); cbn [bind].
  rewrite (single_choice_step_skip _ _ _ H5); cbn [bind].
  now apply for_each_flavor_skip.
Qed.

(* ================================================================== *)
(** ** The engine as a whole *)

Ltac nodup_strings :=
  unfold WfDict, Dict.keys; cbn [map fst];
  repeat (constructor; [cbn [In]; intuition discriminate |]); constructor.

(** C1 (override correctness): whenever the caffeine sensitivity or the
    stomach sensitivity of the answers is "high", [build_profile] returns
    a profile, and its bean preference is not "robusta", whatever the
    other answers, flavors and brew method are. *)
Theorem override_never_robusta user :
  UserPref.caffeine_sensitivity user = "high" \/
  UserPref.stomach_sensitivity user = "high" ->
  exists out,
    build_profile user = Ok out /\
    Profile.bean_preference (Output.profile out) <> Some "robusta".
Proof.
  intros Hhigh.
  destruct (build_profile_total user)
    as (s & rs & out & _ & Hout & _ & _ & _ & _ & bean & _ & Hbean).
  exists out. split; [exact Hout |].
  rewrite Hbean. now apply overridden_not_robusta.
Qed.

Lemma override_never_robusta_witness :
  (UserPref.caffeine_sensitivity
     (UserPref.Build "low" "high" "morning" "focus" ["spicy"] "espresso")
   = "high" \/
   UserPref.stomach_sensitivity
     (UserPref.Build "low" "high" "morning" "focus" ["spicy"] "espresso")
   = "high") /\
  exists out,
    build_profile
      (UserPref.Build "low" "high" "morning" "focus" ["spicy"] "espresso")
    = Ok out /\
    Profile.bean_preference (Output.profile out) <> Some "robusta".
Proof.
  split; [left; reflexivity |].
  apply (override_never_robusta
           (UserPref.Build "low" "high" "morning" "focus" ["spicy"] "espresso")).
  left. reflexivity.
Defined.

(** C2 (default bias on empty signal): when no single-choice answer has
    a rule in the rules of its field and no flavor has a flavor rule,
    [build_profile] resolves every primary dimension to the first label
    of its canonical order: acidity "low", caffeine "low", roast "light",
    flavor "nutty_chocolate", process "washed", brew "filter".  The
    scoreboard is still all zero and no reason is recorded. *)
Theorem default_bias_on_empty_signal user :
  no_rule_matches user ->
  exists out,
    build_profile user = Ok out /\
    Profile.acidity_level (Output.profile out) = Some "low" /\
    Profile.caffeine_tendency (Output.profile out) = Some "low" /\
    Profile.roast_level (Output.profile out) = Some "light" /\
    Profile.flavor_direction (Output.profile out) = Some "nutty_chocolate" /\
    Profile.process_preference (Output.profile out) = Some "washed" /\
    Profile.brew_suitability (Output.profile out) = Some "filter" /\
    Output.scores out = init_scoreboard /\
    Output.reasons out = [].
Proof.
  intros Hno. apply run_rules_no_match in Hno.
  eexists. split.
  - exact (build_profile_board user _ _ _ _ _ _ _ _ Hno).
  - repeat split; reflexivity.
Qed.

Lemma default_bias_on_empty_signal_witness :
  no_rule_matches
    (UserPref.Build "none" "HIGH" "night" "" ["bitter"; "smoky"] "moka") /\
  exists out,
    build_profile
      (UserPref.Build "none" "HIGH" "night" "" ["bitter"; "smoky"] "moka")
    = Ok out /\
    Profile.acidity_level (Output.profile out) = Some "low" /\
    Profile.caffeine_tendency (Output.profile out) = Some "low" /\
    Profile.roast_level (Output.profile out) = Some "light" /\
    Profile.flavor_direction (Output.profile out) = Some "nutty_chocolate" /\
    Profile.process_preference (Output.profile out) = Some "washed" /\
    Profile.brew_suitability (Output.profile out) = Some "filter" /\
    Output.scores out = init_scoreboard /\
    Output.reasons out = [].
Proof.
  assert (H : no_rule_matches
    (UserPref.Build "none" "HIGH" "night" "" ["bitter"; "smoky"] "moka")).
  { unfold no_rule_matches. repeat split; try reflexivity.
    repeat constructor. }
  split; [exact H |].
  exact (default_bias_on_empty_signal
           (UserPref.Build "none" "HIGH" "night" "" ["bitter"; "smoky"] "moka")
           H).
Defined.

(** C6 (monotonic leniency): appending to the flavor directions a value
    that is not a key of the flavor rules changes nothing: the loops end
    in the same scoreboard with the same collected reasons, and
    [build_profile] returns, without raising, the same output. *)
Theorem unknown_flavor_changes_nothing user f :
  Dict.contains f FLAVOR_RULES = false ->
  run_rules (with_flavors user (UserPref.flavor_direction user ++ [f]))
  = run_rules user /\
  exists out,
    build_profile (with_flavors user (UserPref.flavor_direction user ++ [f]))
    = Ok out /\
    build_profile user = Ok out.
Proof.
  intros Hf.
  set (user' := with_flavors user (UserPref.flavor_direction user ++ [f])).
  assert (Hrun : run_rules user' = run_rules user).
  { unfold run_rules, user'. cbn [with_flavors UserPref.flavor_direction].
    change (single_choice_fields (with_flavors user _))
      with (single_choice_fields user).
    destruct (for_each single_choice_step (single_choice_fields user)
                (init_scoreboard, [])) as [st |]; cbn [bind]; [| reflexivity].
    rewrite for_each_app.
    destruct (for_each flavor_step (UserPref.flavor_direction user) st)
      as [st' |]; cbn [bind for_each]; [| reflexivity].
    now rewrite (flavor_step_skip st' f Hf). }
  split; [exact Hrun |].
  destruct (build_profile_total user) as (_ & _ & out & _ & Hout & _).
  exists out. split; [| exact Hout].
  rewrite <- Hout. now apply build_profile_ext.
Qed.

Lemma unknown_flavor_changes_nothing_witness :
  Dict.contains "bitter" FLAVOR_RULES = false /\
  (run_rules (with_flavors scenarioA
                (UserPref.flavor_direction scenarioA ++ ["bitter"]))
   = run_rules scenarioA /\
   exists out,
     build_profile (with_flavors scenarioA
                      (UserPref.flavor_direction scenarioA ++ ["bitter"]))
     = Ok out /\
     build_profile scenarioA = Ok out).
Proof.
  split; [reflexivity |].
  apply (unknown_flavor_changes_nothing scenarioA "bitter"). reflexivity.
Defined.

(** C7 (delta application): [apply_delta] never raises, and afterwards
    every entry (dim, label) of the scoreboard holds its old score plus
    the delta that the delta-set names for it; an entry the delta-set
    does not name is unchanged, and a delta for an unknown dimension, or
    for an unknown label of a known dimension, is skipped: the
    scoreboard still has no such entry. *)
Theorem apply_delta_adds_known_skips_unknown (scores : scoreboard)
    (deltas : Dict.t (Dict.t Z)) :
  WfDict deltas ->
  (forall dim changes, In (dim, changes) deltas -> WfDict changes) ->
  exists scores',
    apply_delta scores deltas = Ok scores' /\
    forall dim label,
      score_at scores' dim label =
      match score_at scores dim label, delta_at deltas dim label with
      | Some v, Some delta => Some (v + delta)
      | Some v, None => Some v
      | None, _ => None
      end.
Proof.
  intros Hwf Hrows.
  destruct (apply_delta_sum deltas scores) as (s' & Hrun & _ & Hsc).
  exists s'. split; [exact Hrun |]. intros dim label.
  rewrite Hsc, (delta_total_wf deltas dim label Hwf Hrows).
  destruct (score_at scores dim label); cbn [option_map]; [| reflexivity].
  destruct (delta_at deltas dim label); [reflexivity | f_equal; lia].
Qed.

Lemma apply_delta_adds_known_skips_unknown_witness :
  WfDict sample_deltas /\
  (forall dim changes, In (dim, changes) sample_deltas -> WfDict changes) /\
  exists scores',
    apply_delta init_scoreboard sample_deltas = Ok scores' /\
    forall dim label,
      score_at scores' dim label =
      match score_at init_scoreboard dim label,
            delta_at sample_deltas dim label with
      | Some v, Some delta => Some (v + delta)
      | Some v, None => Some v
      | None, _ => None
      end.
Proof.
  assert (Hwf : WfDict sample_deltas) by (unfold sample_deltas; nodup_strings).
  assert (Hrows : forall dim changes,
             In (dim, changes) sample_deltas -> WfDict changes).
  { intros dim changes [E | [E | []]]; injection E as <- <-; nodup_strings. }
  split; [exact Hwf |]. split; [exact Hrows |].
  exact (apply_delta_adds_known_skips_unknown init_scoreboard sample_deltas
           Hwf Hrows).
Defined.

(** C8 (fixed key set): [init_scoreboard] has an entry for every label of
    every dimension, the derived bean_pref axis with arabica, blend and
    robusta included; no [apply_delta] call adds, removes or moves a key;
    so after any number of single-choice and flavor steps of a run the
    keys of every dimension are still its canonical labels. *)
Theorem scoreboard_keys_fixed :
  skeleton init_scoreboard = canonical_skeleton /\
  (forall (scores : scoreboard) deltas,
      exists scores',
        apply_delta scores deltas = Ok scores' /\
        skeleton scores' = skeleton scores) /\
  (forall fvs fs,
      exists scores reasons,
        (st <- for_each single_choice_step fvs (init_scoreboard, []) ;;
         for_each flavor_step fs st) = Ok (scores, reasons) /\
        skeleton scores = canonical_skeleton) /\
  (forall user,
      exists out,
        build_profile user = Ok out /\
        skeleton (Output.scores out) = canonical_skeleton).
Proof.
  split; [reflexivity |]. split; [| split].
  - intros scores deltas.
    destruct (apply_delta_sum deltas scores) as (s' & Hrun & Hsk & _). eauto.
  - intros fvs fs.
    destruct (loops_spec fvs fs init_scoreboard []) as (s & Hrun & Hsk & _).
    eexists _, _. split; [exact Hrun |]. rewrite Hsk. reflexivity.
  - intros user.
    destruct (build_profile_total user)
      as (s & _ & out & _ & Hout & Hsk & Hs & _).
    exists out. split; [exact Hout |]. now rewrite Hs.
Qed.

(** C9 (scenario A): stomach "high", caffeine "high", evening, calm,
    floral, filter resolve to bean preference "arabica", caffeine
    tendency "low", process preference "washed" and brew suitability
    "filter". *)
Theorem scenario_A :
  exists out,
    build_profile scenarioA = Ok out /\
    Profile.bean_preference (Output.profile out) = Some "arabica" /\
    Profile.caffeine_tendency (Output.profile out) = Some "low" /\
    Profile.process_preference (Output.profile out) = Some "washed" /\
    Profile.brew_suitability (Output.profile out) = Some "filter".
Proof. eexists. split; [vm_compute; reflexivity |]. repeat split. Qed.

(* ================================================================== *)
(** ** Arg-max resolution *)

(** The loop invariant: the current best is a first maximum of what has
    been visited so far. *)
Lemma argmax_loop_first_max items :
  forall before k v after,
    Forall (fun e => snd e < v) before ->
    Forall (fun e => snd e <= v) after ->
    exists before' k' v' after',
      argmax_loop items (Some (k, v)) = Some (k', v') /\
      before ++ (k, v) :: after ++ items = before' ++ (k', v') :: after' /\
      Forall (fun e => snd e < v') before' /\
      Forall (fun e => snd e <= v') after'.
Proof.
  induction items as [| [k1 v1] rest IH]; intros before k v after Hb Ha.
  - exists before, k, v, after. rewrite app_nil_r. auto.
  - cbn [argmax_loop]. destruct (Z.gtb_spec v1 v) as [Hgt | Hle].
    + destruct (IH (before ++ (k, v) :: after) k1 v1 [])
        as (b' & k' & v' & a' & Hrun & Heq & Hb' & Ha'); [| constructor |].
      * apply Forall_app. split; [| constructor].
        -- eapply Forall_impl; [| exact Hb]. cbn. intros; lia.
        -- cbn. lia.
        -- eapply Forall_impl; [| exact Ha]. cbn. intros; lia.
      * exists b', k', v', a'. split; [exact Hrun |].
        split; [| auto]. rewrite <- Heq, <- app_assoc. reflexivity.
    + destruct (IH before k v (after ++ [(k1, v1)]))
        as (b' & k' & v' & a' & Hrun & Heq & Hb' & Ha'); [exact Hb | |].
      * apply Forall_app. split; [exact Ha |]. constructor; [| constructor].
        cbn. lia.
      * exists b', k', v', a'. split; [exact Hrun |].
        split; [| auto]. rewrite <- Heq, <- app_assoc. reflexivity.
Qed.

(** C3 (arg-max with first-wins tie-break): on every non-empty mapping
    [argmax_label] returns a label, that label carries the highest score,
    and among the labels that share the highest score it is the first in
    the iteration order of the mapping. *)
Theorem argmax_label_first_maximum (m : score_map) :
  m <> [] ->
  exists k, argmax_label m = Some k /\ first_maximum m k.
Proof.
  destruct m as [| [k0 v0] items]; [congruence | intros _].
  destruct (argmax_loop_first_max items [] k0 v0 [])
    as (b' & k' & v' & a' & Hrun & Heq & Hb' & Ha'); [constructor .. |].
  exists k'. unfold argmax_label. cbn [argmax_loop]. rewrite Hrun.
  split; [reflexivity |]. exists b', v', a'. auto.
Qed.

Lemma argmax_label_first_maximum_witness :
  [("low", 2); ("medium", 5); ("high", 5)] <> [] /\
  exists k,
    argmax_label [("low", 2); ("medium", 5); ("high", 5)] = Some k /\
    first_maximum [("low", 2); ("medium", 5); ("high", 5)] k.
Proof.
  split; [discriminate |].
  apply (argmax_label_first_maximum [("low", 2); ("medium", 5); ("high", 5)]).
  discriminate.
Defined.

(* ================================================================== *)
(** ** Explanation ranker *)

Lemma insert_desc_perm x l : Permutation (insert_desc x l) (x :: l).
Proof.
  induction l as [| y rest IH]; cbn [insert_desc]; [reflexivity |].
  destruct (snd y >? snd x); [| reflexivity].
  rewrite IH. apply perm_swap.
Qed.

Lemma sorted_desc_perm l : Permutation (sorted_desc l) l.
Proof.
  induction l as [| x rest IH]; cbn [sorted_desc]; [reflexivity |].
  rewrite insert_desc_perm. now constructor.
Qed.

Lemma insert_desc_HdRel y x l :
  snd y > snd x -> HdRel priority_ge y l -> HdRel priority_ge y (insert_desc x l).
Proof.
  intros Hyx Hhd. destruct l as [| z rest]; cbn [insert_desc].
  - constructor. unfold priority_ge. lia.
  - inversion Hhd; subst.
    destruct (snd z >? snd x); constructor; [assumption |].
    unfold priority_ge. lia.
Qed.

Lemma insert_desc_sorted x l :
  Sorted priority_ge l -> Sorted priority_ge (insert_desc x l).
Proof.
  induction 1 as [| y rest Hsorted IH Hhd]; cbn [insert_desc].
  - repeat constructor.
  - destruct (Z.gtb_spec (snd y) (snd x)) as [Hgt | Hle].
    + constructor; [exact IH |]. apply insert_desc_HdRel; [lia | exact Hhd].
    + constructor; [now constructor |]. constructor. unfold priority_ge. lia.
Qed.

Lemma sorted_desc_sorted l : StronglySorted priority_ge (sorted_desc l).
Proof.
  apply Sorted_StronglySorted.
  - intros a b c. unfold priority_ge. lia.
  - induction l as [| x rest IH]; cbn [sorted_desc]; [constructor |].
    now apply insert_desc_sorted.
Qed.

Lemma insert_desc_stable p x l :
  of_priority p (insert_desc x l) = of_priority p (x :: l).
Proof.
  unfold of_priority.
  induction l as [| y rest IH]; cbn [insert_desc]; [reflexivity |].
  destruct (Z.gtb_spec (snd y) (snd x)) as [Hgt | Hle]; [| reflexivity].
  cbn [filter] in *. rewrite IH.
  destruct (Z.eqb_spec (snd y) p), (Z.eqb_spec (snd x) p);
    try reflexivity; lia.
Qed.

Lemma sorted_desc_stable p l :
  of_priority p (sorted_desc l) = of_priority p l.
Proof.
  induction l as [| x rest IH]; cbn [sorted_desc]; [reflexivity |].
  rewrite insert_desc_stable. unfold of_priority in *. cbn [filter].
  now rewrite IH.
Qed.

(** A ranking is determined by these properties: two descending lists
    that agree on the order within every priority are the same list, so
    any stable descending sort returns [sorted_desc]. *)
Lemma stable_descending_unique (l1 l2 : list (string * Z)) :
  StronglySorted priority_ge l1 ->
  StronglySorted priority_ge l2 ->
  (forall p, of_priority p l1 = of_priority p l2) ->
  l1 = l2.
Proof.
  intros H1. revert l2.
  induction H1 as [| x l1 Hs1 IH Hx]; intros l2 H2 Heq.
  - destruct l2 as [| y l2]; [reflexivity |].
    specialize (Heq (snd y)). unfold of_priority in Heq. cbn [filter] in Heq.
    rewrite Z.eqb_refl in Heq. discriminate.
  - destruct l2 as [| y l2].
    + specialize (Heq (snd x)). unfold of_priority in Heq. cbn [filter] in Heq.
      rewrite Z.eqb_refl in Heq. discriminate.
    + inversion H2 as [| ? ? Hs2 Hy]; subst.
      assert (Hxy : snd x = snd y).
      { assert (Hin2 : In x (y :: l2)).
        { pose proof (Heq (snd x)) as E. unfold of_priority in E.
          cbn [filter] in E. rewrite Z.eqb_refl in E.
          assert (Hf : In x (filter (fun e => snd e =? snd x) (y :: l2)))
            by (cbn [filter]; rewrite <- E; now left).
          apply filter_In in Hf. tauto. }
        assert (Hin1 : In y (x :: l1)).
        { pose proof (Heq (snd y)) as E. unfold of_priority in E.
          cbn [filter] in E. rewrite Z.eqb_refl in E.
          assert (Hf : In y (filter (fun e => snd e =? snd y) (x :: l1)))
            by (cbn [filter]; rewrite E; now left).
          apply filter_In in Hf. tauto. }
        rewrite Forall_forall in Hx, Hy. unfold priority_ge in Hx, Hy.
        destruct Hin2 as [-> | Hin2]; [reflexivity |].
        destruct Hin1 as [<- | Hin1]; [reflexivity |].
        specialize (Hx _ Hin1). specialize (Hy _ Hin2). lia. }
      assert (Hhead : x = y).
      { pose proof (Heq (snd x)) as E. unfold of_priority in E.
        cbn [filter] in E. rewrite <- Hxy, Z.eqb_refl in E. congruence. }
      subst y. f_equal. apply IH; [exact Hs2 |]. intros p.
      specialize (Heq p). unfold of_priority in *. cbn [filter] in Heq.
      destruct (snd x =? p); congruence.
Qed.

Lemma slice_to_nonneg {A : Type} (l : list A) k :
  0 <= k -> slice_to l k = firstn (Z.to_nat k) l.
Proof.
  intros Hk. unfold slice_to.
  destruct (Z.ltb_spec k 0) as [Hneg | _]; [lia |].
  destruct (Z.le_gt_cases k (Z.of_nat (List.length l))) as [Hle | Hgt].
  - now rewrite Z.min_l.
  - rewrite Z.min_r, Nat2Z.id by lia.
    rewrite firstn_all, firstn_all2 by lia. reflexivity.
Qed.

(** C4, as the claim states it, fails for a negative cutoff: the slice
    [[:-1]] drops the last entry only, so one text comes back although
    the cutoff is below zero. *)
Lemma top_reasons_negative_cutoff :
  top_reasons [("a", 1); ("b", 2)] (-1) = ["b"] /\
  ~ (Z.of_nat (List.length (top_reasons [("a", 1); ("b", 2)] (-1))) <= -1).
Proof. split; [reflexivity |]. cbn. lia. Qed.

(** C4, amended (explanation ranker): for every list of (text, priority)
    entries and every cutoff [k >= 0], [top_reasons] returns the texts of
    the first [k] entries of a ranking of the input that is a permutation
    of it, descends by priority and keeps entries of equal priority in
    their insertion order; the result has at most [k] texts; it is the
    whole ranking when the input has at most [k] entries; and the input
    list is left as it was. *)
Theorem top_reasons_ranked (reasons : list (string * Z)) (k : Z) :
  0 <= k ->
  exists ranked,
    Permutation ranked reasons /\
    StronglySorted priority_ge ranked /\
    (forall p, of_priority p ranked = of_priority p reasons) /\
    top_reasons reasons k = map fst (firstn (Z.to_nat k) ranked) /\
    Z.of_nat (List.length (top_reasons reasons k)) <= k /\
    (Z.of_nat (List.length reasons) <= k ->
     top_reasons reasons k = map fst ranked) /\
    snd (top_reasons_run reasons k) = reasons.
Proof.
  intros Hk. exists (sorted_desc reasons).
  assert (Htop : top_reasons reasons k
                 = map fst (firstn (Z.to_nat k) (sorted_desc reasons))).
  { unfold top_reasons, top_reasons_run. cbn [fst].
    now rewrite slice_to_nonneg. }
  split; [apply sorted_desc_perm |].
  split; [apply sorted_desc_sorted |].
  split; [intros p; apply sorted_desc_stable |].
  split; [exact Htop |]. split; [| split; [| reflexivity]].
  - rewrite Htop, length_map, length_firstn. lia.
  - intros Hlen. rewrite Htop, firstn_all2; [reflexivity |].
    rewrite (Permutation_length (sorted_desc_perm reasons)). lia.
Qed.

Lemma top_reasons_ranked_witness :
  0 <= 2 /\
  exists ranked,
    Permutation ranked [("a", 1); ("b", 2); ("c", 1); ("d", 2)] /\
    StronglySorted priority_ge ranked /\
    (forall p,
        of_priority p ranked
        = of_priority p [("a", 1); ("b", 2); ("c", 1); ("d", 2)]) /\
    top_reasons [("a", 1); ("b", 2); ("c", 1); ("d", 2)] 2
    = map fst (firstn (Z.to_nat 2) ranked) /\
    Z.of_nat
      (List.length (top_reasons [("a", 1); ("b", 2); ("c", 1); ("d", 2)] 2))
    <= 2 /\
    (Z.of_nat (List.length [("a", 1); ("b", 2); ("c", 1); ("d", 2)]) <= 2 ->
     top_reasons [("a", 1); ("b", 2); ("c", 1); ("d", 2)] 2 = map fst ranked) /\
    snd (top_reasons_run [("a", 1); ("b", 2); ("c", 1); ("d", 2)] 2)
    = [("a", 1); ("b", 2); ("c", 1); ("d", 2)].
Proof.
  split; [lia |].
  apply (top_reasons_ranked [("a", 1); ("b", 2); ("c", 1); ("d", 2)] 2). lia.
Defined.

(* ================================================================== *)
(** ** Repeated flavors *)

Lemma total_delta_remove (D : string -> string -> string -> Z) f fs d l :
  total_delta D fs d l =
  Z.of_nat (count_occ string_dec fs f) * D f d l
  + total_delta D (remove string_dec f fs) d l.
Proof.
  unfold total_delta, Zsum.
  induction fs as [| g fs IH]; cbn [map fold_right count_occ remove];
    [lia |].
  rewrite IH. destruct (string_dec g f) as [-> | Hne].
  - destruct (string_dec f f) as [_ | Hff]; [lia | congruence].
  - destruct (string_dec f g) as [E | _]; [congruence |].
    cbn [map fold_right]. lia.
Qed.

Lemma rule_reason_In (table : Dict.t Rule) value x :
  In x (rule_reason table value) -> In x (table_reasons table).
Proof.
  unfold rule_reason, table_reasons.
  destruct (Dict.getitem value table) as [[[deltas reason] w] |] eqn:Hget;
    [| contradiction].
  intros [<- | []]. apply getitem_Ok_In in Hget.
  change (reason, w)
    with ((fun e : string * Rule => (snd (fst (snd e)), snd (snd e)))
            (value, (deltas, reason, w))).
  now apply in_map.
Qed.

(** The flavor rules record pairwise distinct explanation entries, none
    of which a single-choice rule records. *)
Lemma flavor_reasons_distinct : NoDup (table_reasons FLAVOR_RULES).
Proof.
  cbn. repeat (constructor; [cbn [In]; intuition discriminate |]). constructor.
Qed.

Lemma flavor_reasons_apart x :
  In x (table_reasons FLAVOR_RULES) -> ~ In x single_choice_reasons.
Proof.
  cbn. intros Hfl Hsc.
  repeat (destruct Hfl as [<- | Hfl];
          [cbn in Hsc; intuition discriminate |]).
  exact Hfl.
Qed.

Lemma table_reasons_inj (table : Dict.t Rule) k1 k2 d1 d2 reason w :
  NoDup (table_reasons table) ->
  Dict.getitem k1 table = Ok (d1, reason, w) ->
  Dict.getitem k2 table = Ok (d2, reason, w) ->
  k1 = k2.
Proof.
  unfold table_reasons.
  induction table as [| [k [[d r] w0]] rest IH]; cbn [map Dict.getitem fst snd];
    [discriminate |].
  intros Hnd H1 H2. inversion Hnd as [| ? ? Hnotin Hnd']; subst.
  destruct (String.eqb_spec k1 k) as [-> | Hk1],
           (String.eqb_spec k2 k) as [-> | Hk2]; auto.
  - injection H1 as -> -> ->. exfalso. apply Hnotin.
    apply (rule_reason_In rest k2). unfold rule_reason. rewrite H2. now left.
  - injection H2 as -> -> ->. exfalso. apply Hnotin.
    apply (rule_reason_In rest k1). unfold rule_reason. rewrite H1. now left.
Qed.

Lemma count_flavor_reasons fs f deltas reason w :
  Dict.getitem f FLAVOR_RULES = Ok (deltas, reason, w) ->
  count_occ entry_eq_dec (flat_map flavor_reason fs) (reason, w)
  = count_occ string_dec fs f.
Proof.
  intros Hf. induction fs as [| g fs IH]; cbn [flat_map count_occ];
    [reflexivity |].
  rewrite count_occ_app, IH. unfold flavor_reason at 1, rule_reason.
  destruct (string_dec g f) as [-> | Hne].
  - rewrite Hf. cbn [count_occ].
    destruct (entry_eq_dec (reason, w) (reason, w)); [lia | congruence].
  - destruct (Dict.getitem g FLAVOR_RULES) as [[[d' r'] w'] |] eqn:Hg;
      cbn [count_occ]; [| reflexivity].
    destruct (entry_eq_dec (r', w') (reason, w)) as [E | _]; [| reflexivity].
    injection E as -> ->. exfalso. apply Hne.
    exact (table_reasons_inj FLAVOR_RULES g f _ _ _ _ flavor_reasons_distinct Hg Hf).
Qed.

Lemma single_choice_reasons_In user x :
  In x (flat_map field_reason (single_choice_fields user)) ->
  In x single_choice_reasons.
Proof.
  unfold single_choice_fields, field_reason. cbn [flat_map fst snd].
  rewrite !in_app_iff. unfold single_choice_reasons.
  intros H.
  change (In x (table_reasons (field_rules "stomach_sensitivity")
                ++ table_reasons (field_rules "caffeine_sensitivity")
                ++ table_reasons (field_rules "time_of_day")
                ++ table_reasons (field_rules "purpose")
                ++ table_reasons (field_rules "brew_method") ++ [])).
  rewrite !in_app_iff.
  destruct H as [H | [H | [H | [H | [H | []]]]]];
    apply rule_reason_In in H; tauto.
Qed.

(** C10 (repeated flavors): a known flavor that occurs [n] times in the
    flavor directions has its delta-set applied [n] times and its
    explanation entry recorded [n] times.  Compared with the run on the
    same answers without that flavor, every score is higher by [n] times
    what the delta-set adds to it, and the collected reasons hold the
    entry of the flavor [n] times instead of not at all.  The scoreboard
    of the output is the one so reached. *)
Theorem repeated_flavor_counted user f deltas reason r_weight :
  Dict.getitem f FLAVOR_RULES = Ok (deltas, reason, r_weight) ->
  exists scores reasons scores0 reasons0 out,
    run_rules user = Ok (scores, reasons) /\
    run_rules
      (with_flavors user
         (remove string_dec f (UserPref.flavor_direction user)))
    = Ok (scores0, reasons0) /\
    (forall dim label,
        score_at scores dim label =
        option_map
          (fun v =>
             v + Z.of_nat (count_occ string_dec
                             (UserPref.flavor_direction user) f)
                 * delta_total deltas dim label)
          (score_at scores0 dim label)) /\
    count_occ entry_eq_dec reasons (reason, r_weight)
    = count_occ string_dec (UserPref.flavor_direction user) f /\
    count_occ entry_eq_dec reasons0 (reason, r_weight) = 0%nat /\
    build_profile user = Ok out /\
    Output.scores out = scores.
Proof.
  intros Hf.
  set (fs := UserPref.flavor_direction user).
  set (user0 := with_flavors user (remove string_dec f fs)).
  destruct (build_profile_total user)
    as (s & rs & out & Hrun' & Hout & _ & Hs & _).
  destruct (run_rules_spec user) as (s1 & Hrun & _ & Hsc).
  destruct (run_rules_spec user0) as (s0 & Hrun0 & _ & Hsc0).
  fold fs in Hrun, Hsc.
  change (single_choice_fields user0) with (single_choice_fields user)
    in Hrun0, Hsc0.
  change (UserPref.flavor_direction user0) with (remove string_dec f fs)
    in Hrun0, Hsc0.
  assert (Hnone : forall gs,
             count_occ entry_eq_dec
               (flat_map field_reason (single_choice_fields user)
                ++ flat_map flavor_reason gs) (reason, r_weight)
             = count_occ string_dec gs f).
  { intros gs. rewrite count_occ_app, (count_flavor_reasons gs f _ _ _ Hf).
    replace (count_occ entry_eq_dec
               (flat_map field_reason (single_choice_fields user))
               (reason, r_weight)) with 0%nat; [reflexivity |].
    symmetry. apply count_occ_not_In. intros Hin.
    apply single_choice_reasons_In in Hin.
    apply (flavor_reasons_apart (reason, r_weight)); [| exact Hin].
    apply (rule_reason_In FLAVOR_RULES f). unfold rule_reason.
    rewrite Hf. now left. }
  exists s1. eexists. exists s0. eexists. exists out.
  split; [exact Hrun |]. split; [exact Hrun0 |].
  split; [| split; [apply Hnone | split; [| split; [exact Hout |]]]].
  - intros dim label. rewrite Hsc, Hsc0, option_map_add.
    rewrite (total_delta_remove flavor_delta f fs dim label).
    replace (flavor_delta f dim label) with (delta_total deltas dim label)
      by (unfold flavor_delta, rule_delta; now rewrite Hf).
    destruct (score_at init_scoreboard dim label); cbn [option_map];
      [f_equal; lia | reflexivity].
  - rewrite Hnone. apply count_occ_not_In, remove_In.
  - rewrite Hs. congruence.
Qed.

Lemma repeated_flavor_counted_witness :
  exists deltas reason r_weight,
    Dict.getitem "floral" FLAVOR_RULES = Ok (deltas, reason, r_weight) /\
    exists scores reasons scores0 reasons0 out,
      run_rules (with_flavors scenarioA ["floral"; "fruity"; "floral"])
      = Ok (scores, reasons) /\
      run_rules
        (with_flavors (with_flavors scenarioA ["floral"; "fruity"; "floral"])
           (remove string_dec "floral"
              (UserPref.flavor_direction
                 (with_flavors scenarioA ["floral"; "fruity"; "floral"]))))
      = Ok (scores0, reasons0) /\
      (forall dim label,
          score_at scores dim label =
          option_map
            (fun v =>
               v + Z.of_nat
                     (count_occ string_dec
                        (UserPref.flavor_direction
                           (with_flavors scenarioA
                              ["floral"; "fruity"; "floral"])) "floral")
                   * delta_total deltas dim label)
            (score_at scores0 dim label)) /\
      count_occ entry_eq_dec reasons (reason, r_weight)
      = count_occ string_dec
          (UserPref.flavor_direction
             (with_flavors scenarioA ["floral"; "fruity"; "floral"])) "floral" /\
      count_occ entry_eq_dec reasons0 (reason, r_weight) = 0%nat /\
      build_profile (with_flavors scenarioA ["floral"; "fruity"; "floral"])
      = Ok out /\
      Output.scores out = scores.
Proof.
  eexists _, _, _. split; [reflexivity |].
  apply (repeated_flavor_counted
           (with_flavors scenarioA ["floral"; "fruity"; "floral"]) "floral").
  reflexivity.
Defined.

(* ================================================================== *)
(** ** Concrete runs *)

Example argmax_tie_first_wins :
  argmax_label [("low", 2); ("medium", 5); ("high", 5)] = Some "medium".
Proof. reflexivity. Qed.

Example argmax_empty_is_none : argmax_label [] = None.
Proof. reflexivity. Qed.

Example top_reasons_stable_ties :
  top_reasons [("a", 1); ("b", 2); ("c", 1); ("d", 2)] 3 = ["b"; "d"; "a"].
Proof. reflexivity. Qed.

Example scenario_A_scores :
  option_map (fun s => score_at s "bean_pref" "arabica")
    (match run_rules scenarioA with Ok st => Some (fst st) | KeyError _ => None end)
  = Some (Some 7).
Proof. vm_compute. reflexivity. Qed.

Example two_flavors_add_up :
  match run_rules (with_flavors scenarioA ["fruity"; "floral"]) with
  | Ok (s, _) => (score_at s "process" "washed", score_at s "roast" "light")
  | KeyError _ => (None, None)
  end = (Some 3, Some 3).
Proof. vm_compute. reflexivity. Qed.

(* ================================================================== *)
(** ** Extensionality of well-formed scoreboards *)

Lemma dict_ext {V : Type} (d1 d2 : Dict.t V) :
  Dict.keys d1 = Dict.keys d2 ->
  NoDup (Dict.keys d1) ->
  (forall k, In k (Dict.keys d1) -> Dict.getitem k d1 = Dict.getitem k d2) ->
  d1 = d2.
Proof.
  revert d2. unfold Dict.keys.
  induction d1 as [| [k v] d1 IH]; intros [| [k' v'] d2]; cbn [map fst];
    try discriminate; [reflexivity |].
  intros [= <- Hkeys] Hnd Hget. inversion Hnd as [| ? ? Hnotin Hnd']; subst.
  assert (Hv : v = v').
  { specialize (Hget k (or_introl eq_refl)). cbn [Dict.getitem] in Hget.
    rewrite String.eqb_refl in Hget. congruence. }
  subst v'. f_equal. apply IH; auto. intros k0 Hin.
  specialize (Hget k0 (or_intror Hin)). cbn [Dict.getitem] in Hget.
  destruct (String.eqb_spec k0 k) as [E | _]; [subst k0; contradiction | exact Hget].
Qed.

Lemma score_at_cons_other (s : scoreboard) d0 r0 d l :
  d <> d0 -> score_at ((d0, r0) :: s) d l = score_at s d l.
Proof.
  intros Hne. unfold score_at. cbn [Dict.getitem].
  destruct (String.eqb_spec d d0); [contradiction | reflexivity].
Qed.

(** Two scoreboards with the same keys and the same scores in dimension
    [d] have the same row for [d]. *)
Lemma row_ext (s1 s2 : scoreboard) d :
  skeleton s1 = skeleton s2 ->
  Forall (fun e => WfDict (snd e)) s1 ->
  (forall l, score_at s1 d l = score_at s2 d l) ->
  Dict.getitem d s1 = Dict.getitem d s2.
Proof.
  revert s2. induction s1 as [| [d1 r1] s1 IH]; intros [| [d2 r2] s2];
    cbn [skeleton map fst snd]; try discriminate; [reflexivity |].
  intros [= <- Hkeys Hrest] Hwf Hsc.
  inversion Hwf as [| ? ? Hr1 Hwf']; subst. cbn [snd] in Hr1.
  cbn [Dict.getitem]. destruct (String.eqb_spec d d1) as [-> | Hne].
  - f_equal. apply dict_ext; auto. intros l Hin.
    specialize (Hsc l). unfold score_at in Hsc. cbn [Dict.getitem] in Hsc.
    rewrite String.eqb_refl in Hsc.
    assert (Hin2 : In l (Dict.keys r2)) by (rewrite <- Hkeys; exact Hin).
    apply contains_In_keys, contains_true_getitem in Hin, Hin2.
    destruct Hin as [v1 E1], Hin2 as [v2 E2]. rewrite E1, E2 in *. congruence.
  - apply IH; auto. intros l. specialize (Hsc l).
    now rewrite !score_at_cons_other in Hsc by assumption.
Qed.

Lemma board_ext (s1 s2 : scoreboard) :
  skeleton s1 = skeleton s2 ->
  WfBoard s1 ->
  (forall d l, score_at s1 d l = score_at s2 d l) ->
  s1 = s2.
Proof.
  intros Hsk [Hwf Hrows] Hsc. apply dict_ext; auto.
  - apply (f_equal (map fst)) in Hsk. unfold skeleton in Hsk.
    rewrite !map_map in Hsk. exact Hsk.
  - intros d _. apply row_ext; auto.
Qed.

Lemma skeleton_WfBoard (s s' : scoreboard) :
  skeleton s' = skeleton s -> WfBoard s -> WfBoard s'.
Proof.
  intros Hsk [Hwf Hrows]. split.
  - unfold WfDict, Dict.keys in *.
    replace (map fst s') with (map fst s); [exact Hwf |].
    apply (f_equal (map fst)) in Hsk. unfold skeleton in Hsk.
    rewrite !map_map in Hsk. symmetry. exact Hsk.
  - clear Hwf. revert s' Hsk.
    induction Hrows as [| [d r] s Hr _ IH]; intros [| [d' r'] s'];
      cbn [skeleton map fst snd]; try discriminate; [constructor |].
    intros [= -> Hkeys Hrest]. constructor; [| now apply IH].
    unfold WfDict in *. cbn [snd] in *. now rewrite Hkeys.
Qed.

Lemma init_scoreboard_wf : WfBoard init_scoreboard.
Proof.
  split; [nodup_strings |].
  repeat (constructor; [cbn; nodup_strings |]). constructor.
Qed.

(* ================================================================== *)
(** ** More on delta application *)

Lemma changes_total_negate (changes : Dict.t Z) l :
  changes_total (map (fun c => (fst c, - snd c)) changes) l
  = - changes_total changes l.
Proof.
  induction changes as [| [l' v] rest IH]; cbn [map changes_total fst snd];
    [reflexivity |].
  rewrite IH. destruct (String.eqb l l'); lia.
Qed.

Lemma delta_total_negate (deltas : Dict.t (Dict.t Z)) d l :
  delta_total (negate_deltas deltas) d l = - delta_total deltas d l.
Proof.
  unfold negate_deltas.
  induction deltas as [| [d' ch] rest IH]; cbn [map delta_total fst snd];
    [reflexivity |].
  rewrite IH, changes_total_negate. destruct (String.eqb d d'); lia.
Qed.

(** X1 (order of delta-sets): on a well-formed scoreboard, applying two
    delta-sets in either order never raises and ends in the same
    scoreboard. *)
Theorem apply_delta_commutes (s : scoreboard) (d1 d2 : Dict.t (Dict.t Z)) :
  WfBoard s ->
  exists s',
    (s1 <- apply_delta s d1 ;; apply_delta s1 d2) = Ok s' /\
    (s2 <- apply_delta s d2 ;; apply_delta s2 d1) = Ok s'.
Proof.
  intros Hwf.
  destruct (apply_delta_sum d1 s) as (s1 & H1 & Hk1 & Hs1).
  destruct (apply_delta_sum d2 s1) as (s12 & H12 & Hk12 & Hs12).
  destruct (apply_delta_sum d2 s) as (s2 & H2 & Hk2 & Hs2).
  destruct (apply_delta_sum d1 s2) as (s21 & H21 & Hk21 & Hs21).
  exists s12. rewrite H1, H2. cbn [bind]. split; [exact H12 |].
  rewrite H21. f_equal. apply board_ext.
  - congruence.
  - apply (skeleton_WfBoard s s21); [congruence | exact Hwf].
  - intros d l. rewrite Hs21, Hs2, Hs12, Hs1, !option_map_add.
    destruct (score_at s d l); cbn [option_map]; [f_equal; lia | reflexivity].
Qed.

Lemma apply_delta_commutes_witness :
  WfBoard init_scoreboard /\
  exists s',
    (s1 <- apply_delta init_scoreboard sample_deltas ;;
     apply_delta s1 [("roast", [("dark", 2)])]) = Ok s' /\
    (s2 <- apply_delta init_scoreboard [("roast", [("dark", 2)])] ;;
     apply_delta s2 sample_deltas) = Ok s'.
Proof.
  split; [exact init_scoreboard_wf |].
  exact (apply_delta_commutes init_scoreboard sample_deltas
           [("roast", [("dark", 2)])] init_scoreboard_wf).
Defined.

(** X2 (undoing a delta-set): on a well-formed scoreboard, applying a
    delta-set and then the same delta-set with every delta negated gives
    back the scoreboard one started from. *)
Theorem apply_delta_negate_restores (s : scoreboard)
    (deltas : Dict.t (Dict.t Z)) :
  WfBoard s ->
  (s1 <- apply_delta s deltas ;; apply_delta s1 (negate_deltas deltas)) = Ok s.
Proof.
  intros Hwf.
  destruct (apply_delta_sum deltas s) as (s1 & H1 & Hk1 & Hs1).
  destruct (apply_delta_sum (negate_deltas deltas) s1) as (s2 & H2 & Hk2 & Hs2).
  rewrite H1. cbn [bind]. rewrite H2. f_equal. apply board_ext.
  - congruence.
  - apply (skeleton_WfBoard s s2); [congruence | exact Hwf].
  - intros d l. rewrite Hs2, Hs1, option_map_add, delta_total_negate.
    destruct (score_at s d l); cbn [option_map]; [f_equal; lia | reflexivity].
Qed.

Lemma apply_delta_negate_restores_witness :
  WfBoard init_scoreboard /\
  (s1 <- apply_delta init_scoreboard sample_deltas ;;
   apply_delta s1 (negate_deltas sample_deltas)) = Ok init_scoreboard.
Proof.
  split; [exact init_scoreboard_wf |].
  exact (apply_delta_negate_restores init_scoreboard sample_deltas
           init_scoreboard_wf).
Defined.

(* ================================================================== *)
(** ** More on resolution and ranking *)

Lemma argmax_label_In (m : score_map) :
  m <> [] -> exists k, argmax_label m = Some k /\ In k (Dict.keys m).
Proof.
  destruct m as [| [k0 v0] items]; [congruence | intros _].
  destruct (argmax_loop_first_max items [] k0 v0 [])
    as (b' & k' & v' & a' & Hrun & Heq & _); [constructor .. |].
  exists k'. unfold argmax_label. cbn [argmax_loop]. rewrite Hrun.
  split; [reflexivity |]. cbn [app] in Heq. rewrite Heq.
  unfold Dict.keys. rewrite map_app, in_app_iff. right. now left.
Qed.

(** X3 (empty mapping): [argmax_label] returns [None] exactly on the
    empty mapping; on any other mapping it returns one of its keys. *)
Theorem argmax_label_none_iff_empty (m : score_map) :
  (argmax_label m = None <-> m = []) /\
  (forall k, argmax_label m = Some k -> In k (Dict.keys m)).
Proof.
  split; [split |].
  - intros Hnone. destruct m as [| e m]; [reflexivity |].
    destruct (argmax_label_In (e :: m)) as (k & Hk & _); congruence.
  - intros ->. reflexivity.
  - intros k Hk. destruct m as [| e m]; [discriminate Hk |].
    destruct (argmax_label_In (e :: m)) as (k' & Hk' & Hin); congruence.
Qed.

Lemma length_sorted_desc l : List.length (sorted_desc l) = List.length l.
Proof. apply Permutation_length, sorted_desc_perm. Qed.

Lemma top_reasons_nonneg reasons k :
  0 <= k ->
  top_reasons reasons k = map fst (firstn (Z.to_nat k) (sorted_desc reasons)).
Proof.
  intros Hk. unfold top_reasons, top_reasons_run. cbn [fst].
  now rewrite slice_to_nonneg.
Qed.

Lemma length_top_reasons reasons k :
  0 <= k ->
  List.length (top_reasons reasons k)
  = Nat.min (Z.to_nat k) (List.length reasons).
Proof.
  intros Hk.
  now rewrite top_reasons_nonneg, length_map, length_firstn, length_sorted_desc.
Qed.

(** X4 (negative cutoff): a cutoff [k < 0] behaves as the cutoff
    [len(reasons) + k], or as 0 when that is negative: the last [-k]
    texts of the ranking are dropped. *)
Theorem top_reasons_negative_counts_from_end reasons k :
  k < 0 ->
  top_reasons reasons k
  = top_reasons reasons (Z.max (Z.of_nat (List.length reasons) + k) 0).
Proof.
  intros Hk. unfold top_reasons, top_reasons_run, slice_to. cbn [fst].
  rewrite length_sorted_desc.
  destruct (Z.ltb_spec k 0) as [_ | Hge]; [| lia].
  destruct (Z.ltb_spec (Z.max (Z.of_nat (List.length reasons) + k) 0) 0)
    as [Hneg | _]; [lia |].
  do 2 f_equal. lia.
Qed.

Lemma top_reasons_negative_counts_from_end_witness :
  -1 < 0 /\
  top_reasons [("a", 1); ("b", 2); ("c", 3)] (-1)
  = top_reasons [("a", 1); ("b", 2); ("c", 3)]
      (Z.max (Z.of_nat (List.length [("a", 1); ("b", 2); ("c", 3)]) + -1) 0).
Proof.
  split; [lia |].
  apply (top_reasons_negative_counts_from_end
           [("a", 1); ("b", 2); ("c", 3)] (-1)).
  lia.
Defined.

(** X5 (smaller cutoff, same ranking): for cutoffs [0 <= k <= k'] the
    texts returned for [k] are the first [k] of the texts returned for
    [k']. *)
Theorem top_reasons_prefix reasons k k' :
  0 <= k -> k <= k' ->
  top_reasons reasons k = firstn (Z.to_nat k) (top_reasons reasons k').
Proof.
  intros Hk Hkk'. rewrite !top_reasons_nonneg by lia.
  rewrite <- firstn_map, <- firstn_map, firstn_firstn.
  f_equal. lia.
Qed.

Lemma top_reasons_prefix_witness :
  0 <= 1 /\ 1 <= 4 /\
  top_reasons [("a", 1); ("b", 2); ("c", 3)] 1
  = firstn (Z.to_nat 1) (top_reasons [("a", 1); ("b", 2); ("c", 3)] 4).
Proof.
  split; [lia |]. split; [lia |].
  apply (top_reasons_prefix [("a", 1); ("b", 2); ("c", 3)] 1 4); lia.
Defined.

(* ================================================================== *)
(** ** The scoreboard that a run ends in *)

Lemma getitem_map_row (f g : string -> Z) (labels : list string) l :
  match Dict.getitem l (map (fun k => (k, f k)) labels) with
  | Ok v => Some v
  | KeyError _ => None
  end
  = option_map (fun v => v + (f l - g l))
      match Dict.getitem l (map (fun k => (k, g k)) labels) with
      | Ok v => Some v
      | KeyError _ => None
      end.
Proof.
  induction labels as [| k labels IH]; cbn [map Dict.getitem];
    [reflexivity |].
  destruct (String.eqb_spec l k) as [-> | _]; [| exact IH].
  cbn [option_map]. f_equal. lia.
Qed.

Lemma score_at_filled (f : string -> string -> Z)
    (sk : list (string * list string)) d l :
  score_at (map (fun e => (fst e, map (fun k => (k, f (fst e) k)) (snd e))) sk)
    d l
  = option_map (fun v => v + f d l)
      (score_at (map (fun e => (fst e, zero_scores (snd e))) sk) d l).
Proof.
  unfold score_at, zero_scores.
  induction sk as [| [d0 labels] sk IH]; cbn [map Dict.getitem fst snd];
    [reflexivity |].
  destruct (String.eqb_spec d d0) as [-> | _]; [| exact IH].
  rewrite (getitem_map_row (f d0) (fun _ => 0) labels l).
  destruct (Dict.getitem l (map (fun k => (k, 0)) labels));
    cbn [option_map]; [f_equal; lia | reflexivity].
Qed.

Lemma score_at_expected user d l :
  score_at (expected_scores user) d l
  = option_map (fun v => v + answers_total user d l)
      (score_at init_scoreboard d l).
Proof.
  exact (score_at_filled (answers_total user) canonical_skeleton d l).
Qed.

(** The state that the two loops end in, written out. *)
Lemma run_rules_expected user :
  run_rules user = Ok (expected_scores user, collected_reasons user).
Proof.
  destruct (run_rules_spec user) as (s & Hrun & Hsk & Hsc).
  rewrite Hrun. unfold collected_reasons. do 2 f_equal.
  apply board_ext.
  - rewrite Hsk. reflexivity.
  - apply (skeleton_WfBoard init_scoreboard s);
      [rewrite Hsk; reflexivity | exact init_scoreboard_wf].
  - intros d l. rewrite Hsc, score_at_expected. reflexivity.
Qed.

Lemma build_profile_expected user :
  build_profile user =
  Ok (Output.Build
        (Profile.Build
           (resolved (expected_scores user) "acidity")
           (resolved (expected_scores user) "caffeine")
           (resolved (expected_scores user) "roast")
           (resolved (expected_scores user) "flavor")
           (resolved (expected_scores user) "process")
           (resolved (expected_scores user) "brew")
           (overridden user (resolved (expected_scores user) "bean_pref")))
        (expected_scores user)
        (top_reasons (collected_reasons user) 4)
        DISCLAIMER).
Proof.
  pose proof (run_rules_expected user) as Hrun.
  unfold expected_scores, canonical_skeleton in *. cbn [map fst snd] in *.
  exact (build_profile_board user _ _ _ _ _ _ _ _ Hrun).
Qed.

Lemma getitem_zero_scores labels l v :
  Dict.getitem l (zero_scores labels) = Ok v -> v = 0.
Proof.
  unfold zero_scores.
  induction labels as [| k labels IH]; cbn [map Dict.getitem]; [discriminate |].
  destruct (String.eqb l k); [congruence | exact IH].
Qed.

Lemma score_at_init_zero d l v : score_at init_scoreboard d l = Some v -> v = 0.
Proof.
  change init_scoreboard
    with (map (fun e : string * list string => (fst e, zero_scores (snd e)))
            canonical_skeleton).
  unfold score_at. generalize canonical_skeleton as sk.
  induction sk as [| [d0 labels] sk IH]; cbn [map Dict.getitem fst snd];
    [discriminate |].
  destruct (String.eqb d d0); [| exact IH].
  destruct (Dict.getitem l (zero_scores labels)) as [v0 |] eqn:E;
    [| discriminate].
  intros [= <-]. exact (getitem_zero_scores labels l _ E).
Qed.

(** X6 (scores are sums): the scoreboard that [build_profile] returns
    has the canonical keys, and each score is the sum of the deltas that
    the rules of the matching answers name for that entry, a flavor
    counted once per occurrence. *)
Theorem returned_scores_are_sums user :
  exists out,
    build_profile user = Ok out /\
    Output.scores out = expected_scores user /\
    forall dim label,
      score_at (Output.scores out) dim label
      = option_map (fun _ => answers_total user dim label)
          (score_at init_scoreboard dim label).
Proof.
  eexists. split; [apply build_profile_expected |].
  cbn [Output.scores]. split; [reflexivity |].
  intros dim label. rewrite score_at_expected.
  destruct (score_at init_scoreboard dim label) as [v |] eqn:E;
    cbn [option_map]; [| reflexivity].
  f_equal. apply score_at_init_zero in E. lia.
Qed.

(* ================================================================== *)
(** ** Answers without a rule, and the order of the flavors *)

Lemma rule_delta_unknown (table : Dict.t Rule) v d l :
  Dict.contains v table = false -> rule_delta table v d l = 0.
Proof.
  intros H. unfold rule_delta. now rewrite (contains_false_getitem _ _ H).
Qed.

Lemma rule_reason_unknown (table : Dict.t Rule) v :
  Dict.contains v table = false -> rule_reason table v = [].
Proof.
  intros H. unfold rule_reason. now rewrite (contains_false_getitem _ _ H).
Qed.

Lemma length_rule_reason (table : Dict.t Rule) v :
  List.length (rule_reason table v)
  = if Dict.contains v table then 1%nat else 0%nat.
Proof.
  destruct (Dict.contains v table) eqn:H.
  - destruct (contains_true_getitem _ _ H) as [[[deltas reason] w] Hget].
    unfold rule_reason. now rewrite Hget.
  - now rewrite rule_reason_unknown.
Qed.

Lemma length_flat_map_filter {A : Type} (R : A -> list (string * Z))
    (P : A -> bool) xs :
  (forall x, List.length (R x) = if P x then 1%nat else 0%nat) ->
  List.length (flat_map R xs) = List.length (filter P xs).
Proof.
  intros HR. induction xs as [| x xs IH]; cbn [flat_map filter];
    [reflexivity |].
  rewrite length_app, HR, IH. destruct (P x); reflexivity.
Qed.

Lemma length_collected_reasons user :
  List.length (collected_reasons user)
  = (List.length (known_answers user)
     + List.length (known_flavors (UserPref.flavor_direction user)))%nat.
Proof.
  unfold collected_reasons, known_answers, known_flavors.
  rewrite length_app. f_equal; apply length_flat_map_filter.
  - intros [field_name value]. apply length_rule_reason.
  - intros f. apply length_rule_reason.
Qed.

(** X7 (number of reasons): [build_profile] returns one reason for each
    single-choice answer that has a rule and for each occurrence of a
    flavor that has a rule, up to four reasons. *)
Theorem reasons_count user :
  exists out,
    build_profile user = Ok out /\
    List.length (Output.reasons out)
    = Nat.min 4
        (List.length (known_answers user)
         + List.length (known_flavors (UserPref.flavor_direction user))).
Proof.
  eexists. split; [apply build_profile_expected |].
  cbn [Output.reasons].
  rewrite length_top_reasons, length_collected_reasons by lia. reflexivity.
Qed.

Lemma argmax_label_filled (f : string -> Z) (labels : list string) :
  labels <> [] ->
  label_in (argmax_label (map (fun l => (l, f l)) labels)) labels.
Proof.
  intros Hne.
  destruct (argmax_label_In (map (fun l => (l, f l)) labels))
    as (k & Hk & Hin).
  - destruct labels; [congruence | discriminate].
  - exists k. split; [exact Hk |].
    unfold Dict.keys in Hin. rewrite map_map in Hin. cbn [fst] in Hin.
    now rewrite map_id in Hin.
Qed.

Lemma overridden_label_in user bean_pref :
  label_in bean_pref BEAN_PREF -> label_in (overridden user bean_pref) BEAN_PREF.
Proof.
  intros Hin. assert (Ha : label_in (Some "arabica") BEAN_PREF).
  { exists "arabica". split; [reflexivity | now left]. }
  unfold overridden.
  destruct (String.eqb (UserPref.caffeine_sensitivity user) "high"
            && label_is bean_pref "robusta");
    destruct (String.eqb (UserPref.stomach_sensitivity user) "high"
              && label_is _ "robusta"); assumption.
Qed.

(** X8 (labels are canonical): every label of the returned profile is a
    string, never [None], and one of the candidate labels of its
    dimension; the bean preference is arabica, blend or robusta. *)
Theorem profile_labels_canonical user :
  exists out,
    build_profile user = Ok out /\
    label_in (Profile.acidity_level (Output.profile out)) ACIDITY /\
    label_in (Profile.caffeine_tendency (Output.profile out)) CAFFEINE /\
    label_in (Profile.roast_level (Output.profile out)) ROAST /\
    label_in (Profile.flavor_direction (Output.profile out)) FLAVOR /\
    label_in (Profile.process_preference (Output.profile out)) PROCESS /\
    label_in (Profile.brew_suitability (Output.profile out)) BREW /\
    label_in (Profile.bean_preference (Output.profile out)) BEAN_PREF.
Proof.
  eexists. split; [apply build_profile_expected |].
  cbn [Output.profile Profile.acidity_level Profile.caffeine_tendency
         Profile.roast_level Profile.flavor_direction
         Profile.process_preference Profile.brew_suitability
         Profile.bean_preference].
  repeat split; try apply overridden_label_in;
    apply (argmax_label_filled (answers_total user _)); discriminate.
Qed.

Lemma total_delta_perm {A : Type} (D : A -> string -> string -> Z) xs ys d l :
  Permutation xs ys -> total_delta D xs d l = total_delta D ys d l.
Proof.
  unfold total_delta, Zsum.
  induction 1; cbn [map fold_right]; lia.
Qed.

Lemma getitem_filled_ext (f g : string -> string -> Z)
    (sk : list (string * list string)) d :
  (forall l, f d l = g d l) ->
  Dict.getitem d
    (map (fun e => (fst e, map (fun k => (k, f (fst e) k)) (snd e))) sk)
  = Dict.getitem d
      (map (fun e => (fst e, map (fun k => (k, g (fst e) k)) (snd e))) sk).
Proof.
  intros Hfg. induction sk as [| [d0 labels] sk IH];
    cbn [map Dict.getitem fst snd]; [reflexivity |].
  destruct (String.eqb_spec d d0) as [-> | _]; [| exact IH].
  f_equal. apply map_ext. intros k. now rewrite Hfg.
Qed.

(** The row of a dimension, hence its resolved label, is the same for
    two users whose answers add the same totals to that dimension. *)
Lemma resolved_ext u1 u2 d :
  (forall l, answers_total u1 d l = answers_total u2 d l) ->
  resolved (expected_scores u1) d = resolved (expected_scores u2) d.
Proof.
  intros H. unfold resolved.
  assert (E : Dict.getitem d (expected_scores u1)
              = Dict.getitem d (expected_scores u2))
    by exact (getitem_filled_ext (answers_total u1) (answers_total u2)
                canonical_skeleton d H).
  now rewrite E.
Qed.

Lemma expected_scores_ext u1 u2 :
  (forall d l, answers_total u1 d l = answers_total u2 d l) ->
  expected_scores u1 = expected_scores u2.
Proof.
  intros H. unfold expected_scores. apply map_ext. intros [d labels].
  cbn [fst snd]. f_equal. apply map_ext. intros l. now rewrite H.
Qed.

(** X9 (order of the flavors): listing the same flavor directions in
    another order changes neither the returned scoreboard nor any label
    of the returned profile. *)
Theorem flavor_order_keeps_scores_and_labels user fs' :
  Permutation (UserPref.flavor_direction user) fs' ->
  exists out out',
    build_profile user = Ok out /\
    build_profile (with_flavors user fs') = Ok out' /\
    Output.scores out = Output.scores out' /\
    Output.profile out = Output.profile out'.
Proof.
  intros Hperm.
  assert (Htot : forall d l,
             answers_total user d l = answers_total (with_flavors user fs') d l).
  { intros d l. unfold answers_total.
    change (single_choice_fields (with_flavors user fs'))
      with (single_choice_fields user).
    cbn [with_flavors UserPref.flavor_direction].
    now rewrite (total_delta_perm flavor_delta _ _ d l Hperm). }
  eexists _, _. split; [apply build_profile_expected |].
  split; [apply build_profile_expected |].
  cbn [Output.scores Output.profile].
  rewrite <- (expected_scores_ext user (with_flavors user fs') Htot).
  split; reflexivity.
Qed.

Lemma flavor_order_keeps_scores_and_labels_witness :
  Permutation
    (UserPref.flavor_direction (with_flavors scenarioA ["fruity"; "floral"]))
    ["floral"; "fruity"] /\
  exists out out',
    build_profile (with_flavors scenarioA ["fruity"; "floral"]) = Ok out /\
    build_profile
      (with_flavors (with_flavors scenarioA ["fruity"; "floral"])
         ["floral"; "fruity"]) = Ok out' /\
    Output.scores out = Output.scores out' /\
    Output.profile out = Output.profile out'.
Proof.
  split; [apply perm_swap |].
  apply (flavor_order_keeps_scores_and_labels
           (with_flavors scenarioA ["fruity"; "floral"]) ["floral"; "fruity"]).
  apply perm_swap.
Defined.

(** The reasons do depend on the order: among equal priorities the
    flavor visited first is listed first. *)
Example flavor_order_changes_reasons :
  option_map Output.reasons
    (match build_profile (UserPref.Build "" "" "" "" ["fruity"; "floral"] "")
     with Ok out => Some out | KeyError _ => None end)
  <> option_map Output.reasons
       (match build_profile (UserPref.Build "" "" "" "" ["floral"; "fruity"] "")
        with Ok out => Some out | KeyError _ => None end).
Proof. vm_compute. discriminate. Qed.

Lemma field_delta_same_or_unknown field_name v1 v2 d l :
  same_or_unknown (field_rules field_name) v1 v2 ->
  field_delta (field_name, v1) d l = field_delta (field_name, v2) d l.
Proof.
  intros [-> | [H1 H2]]; [reflexivity |]. unfold field_delta. cbn [fst snd].
  now rewrite !rule_delta_unknown.
Qed.

Lemma field_reason_same_or_unknown field_name v1 v2 :
  same_or_unknown (field_rules field_name) v1 v2 ->
  field_reason (field_name, v1) = field_reason (field_name, v2).
Proof.
  intros [-> | [H1 H2]]; [reflexivity |]. unfold field_reason. cbn [fst snd].
  now rewrite !rule_reason_unknown.
Qed.

Lemma eqb_same_or_unknown (table : Dict.t Rule) key v1 v2 :
  Dict.contains key table = true ->
  same_or_unknown table v1 v2 ->
  String.eqb v1 key = String.eqb v2 key.
Proof.
  intros Hkey [-> | [H1 H2]]; [reflexivity |].
  destruct (String.eqb_spec v1 key) as [-> | _]; [congruence |].
  destruct (String.eqb_spec v2 key) as [-> | _]; [congruence | reflexivity].
Qed.

Lemma total_delta_known_flavors fs d l :
  total_delta flavor_delta fs d l
  = total_delta flavor_delta (known_flavors fs) d l.
Proof.
  unfold total_delta, Zsum, known_flavors.
  induction fs as [| f fs IH]; cbn [map fold_right filter]; [reflexivity |].
  destruct (Dict.contains f FLAVOR_RULES) eqn:Hf; cbn [map fold_right].
  - now rewrite IH.
  - unfold flavor_delta at 1. now rewrite rule_delta_unknown, IH.
Qed.

Lemma flavor_reasons_known_flavors fs :
  flat_map flavor_reason fs = flat_map flavor_reason (known_flavors fs).
Proof.
  unfold known_flavors.
  induction fs as [| f fs IH]; cbn [flat_map filter]; [reflexivity |].
  destruct (Dict.contains f FLAVOR_RULES) eqn:Hf; cbn [flat_map].
  - now rewrite IH.
  - unfold flavor_reason at 1. now rewrite rule_reason_unknown, IH.
Qed.

(** X10 (answers without a rule are interchangeable): two answer sets
    whose single-choice values are, field by field, equal or both without
    a rule, and whose flavor lists agree once the flavors without a rule
    are left out, get the same output, reasons included. *)
Theorem unknown_answers_interchangeable u1 u2 :
  same_or_unknown (field_rules "stomach_sensitivity")
    (UserPref.stomach_sensitivity u1) (UserPref.stomach_sensitivity u2) ->
  same_or_unknown (field_rules "caffeine_sensitivity")
    (UserPref.caffeine_sensitivity u1) (UserPref.caffeine_sensitivity u2) ->
  same_or_unknown (field_rules "time_of_day")
    (UserPref.time_of_day u1) (UserPref.time_of_day u2) ->
  same_or_unknown (field_rules "purpose")
    (UserPref.purpose u1) (UserPref.purpose u2) ->
  same_or_unknown (field_rules "brew_method")
    (UserPref.brew_method u1) (UserPref.brew_method u2) ->
  known_flavors (UserPref.flavor_direction u1)
  = known_flavors (UserPref.flavor_direction u2) ->
  exists out, build_profile u1 = Ok out /\ build_profile u2 = Ok out.
Proof.
  intros Hs Hc Ht Hp Hb Hf.
  assert (Htot : forall d l, answers_total u1 d l = answers_total u2 d l).
  { intros d l. unfold answers_total.
    rewrite (total_delta_known_flavors (UserPref.flavor_direction u1)),
      (total_delta_known_flavors (UserPref.flavor_direction u2)), Hf.
    f_equal. unfold total_delta, Zsum, single_choice_fields.
    cbn [map fold_right].
    now rewrite (field_delta_same_or_unknown _ _ _ d l Hs),
      (field_delta_same_or_unknown _ _ _ d l Hc),
      (field_delta_same_or_unknown _ _ _ d l Ht),
      (field_delta_same_or_unknown _ _ _ d l Hp),
      (field_delta_same_or_unknown _ _ _ d l Hb). }
  assert (Hrs : collected_reasons u1 = collected_reasons u2).
  { unfold collected_reasons.
    rewrite (flavor_reasons_known_flavors (UserPref.flavor_direction u1)),
      (flavor_reasons_known_flavors (UserPref.flavor_direction u2)), Hf.
    f_equal. unfold single_choice_fields. cbn [flat_map].
    now rewrite (field_reason_same_or_unknown _ _ _ Hs),
      (field_reason_same_or_unknown _ _ _ Hc), (field_reason_same_or_unknown _ _ _ Ht),
      (field_reason_same_or_unknown _ _ _ Hp), (field_reason_same_or_unknown _ _ _ Hb). }
  assert (Hov : forall x, overridden u1 x = overridden u2 x).
  { intros x. unfold overridden.
    now rewrite (eqb_same_or_unknown (field_rules "caffeine_sensitivity")
                   "high" _ _ eq_refl Hc),
      (eqb_same_or_unknown (field_rules "stomach_sensitivity")
         "high" _ _ eq_refl Hs). }
  eexists. split; [apply build_profile_expected |].
  rewrite (build_profile_expected u2), Hrs, Hov,
    (expected_scores_ext u1 u2 Htot).
  reflexivity.
Qed.

Lemma unknown_answers_interchangeable_witness :
  same_or_unknown (field_rules "stomach_sensitivity") "HIGH" "none" /\
  same_or_unknown (field_rules "caffeine_sensitivity") "low" "low" /\
  same_or_unknown (field_rules "time_of_day") "noon" "night" /\
  same_or_unknown (field_rules "purpose") "calm" "calm" /\
  same_or_unknown (field_rules "brew_method") "" "moka" /\
  known_flavors ["bitter"; "floral"] = known_flavors ["floral"; "smoky"; "x"] /\
  exists out,
    build_profile
      (UserPref.Build "HIGH" "low" "noon" "calm" ["bitter"; "floral"] "")
    = Ok out /\
    build_profile
      (UserPref.Build "none" "low" "night" "calm" ["floral"; "smoky"; "x"] "moka")
    = Ok out.
Proof.
  assert (H1 : same_or_unknown (field_rules "stomach_sensitivity") "HIGH" "none")
    by (right; split; reflexivity).
  assert (H2 : same_or_unknown (field_rules "caffeine_sensitivity") "low" "low")
    by (left; reflexivity).
  assert (H3 : same_or_unknown (field_rules "time_of_day") "noon" "night")
    by (right; split; reflexivity).
  assert (H4 : same_or_unknown (field_rules "purpose") "calm" "calm")
    by (left; reflexivity).
  assert (H5 : same_or_unknown (field_rules "brew_method") "" "moka")
    by (right; split; reflexivity).
  assert (H6 : known_flavors ["bitter"; "floral"]
               = known_flavors ["floral"; "smoky"; "x"]) by reflexivity.
  repeat (split; [assumption |]).
  exact (unknown_answers_interchangeable
           (UserPref.Build "HIGH" "low" "noon" "calm" ["bitter"; "floral"] "")
           (UserPref.Build "none" "low" "night" "calm"
              ["floral"; "smoky"; "x"] "moka")
           H1 H2 H3 H4 H5 H6).
Defined.

(* ================================================================== *)
(** ** Which answers reach which dimension *)

Lemma rule_delta_silent (table : Dict.t Rule) v d l :
  table_silent table d = true -> rule_delta table v d l = 0.
Proof.
  intros Hsilent. unfold rule_delta.
  destruct (Dict.getitem v table) as [[[deltas reason] w] |] eqn:Hget;
    [| reflexivity].
  apply getitem_Ok_In in Hget. unfold table_silent in Hsilent.
  rewrite forallb_forall in Hsilent. specialize (Hsilent _ Hget).
  cbn [fst snd] in Hsilent. apply negb_true_iff in Hsilent.
  now apply delta_total_absent.
Qed.

Lemma total_delta_touching d fvs l :
  total_delta field_delta fvs d l
  = total_delta field_delta (touching d fvs) d l.
Proof.
  unfold total_delta, Zsum, touching.
  induction fvs as [| fv fvs IH]; cbn [map fold_right filter]; [reflexivity |].
  destruct (table_silent (field_rules (fst fv)) d) eqn:Hs;
    cbn [negb map fold_right].
  - unfold field_delta at 1. now rewrite rule_delta_silent, IH.
  - now rewrite IH.
Qed.

Lemma flavor_total_silent d fs l :
  table_silent FLAVOR_RULES d = true -> total_delta flavor_delta fs d l = 0.
Proof.
  intros Hs. unfold total_delta, Zsum.
  induction fs as [| f fs IH]; cbn [map fold_right]; [reflexivity |].
  unfold flavor_delta at 1. now rewrite rule_delta_silent, IH.
Qed.

(** The totals for a dimension agree for two users that give the same
    answers to the fields whose rules reach it, and the same flavors if
    a flavor rule reaches it. *)
Lemma answers_total_dep u1 u2 d :
  touching d (single_choice_fields u1) = touching d (single_choice_fields u2) ->
  (table_silent FLAVOR_RULES d = false ->
   UserPref.flavor_direction u1 = UserPref.flavor_direction u2) ->
  forall l, answers_total u1 d l = answers_total u2 d l.
Proof.
  intros Hfields Hfl l. unfold answers_total.
  rewrite (total_delta_touching d (single_choice_fields u1)),
    (total_delta_touching d (single_choice_fields u2)), Hfields.
  f_equal. destruct (table_silent FLAVOR_RULES d) eqn:Hs.
  - now rewrite !flavor_total_silent.
  - now rewrite Hfl.
Qed.

Ltac same_answers :=
  apply resolved_ext, answers_total_dep;
  [ vm_compute; reflexivity
  | first [ intros; reflexivity
          | let H := fresh in intros H; vm_compute in H; discriminate H ] ].

(** X11 (which answers decide which label): the acidity label depends
    only on the stomach sensitivity and the purpose; the caffeine label
    only on the caffeine sensitivity, the time of day and the purpose;
    the roast label on everything but the caffeine sensitivity; the
    flavor and the process label only on the flavor directions; the brew
    label only on the brew method; the bean preference only on the two
    sensitivities. *)
Theorem labels_depend_on_reaching_answers u1 u2 :
  exists out1 out2,
    build_profile u1 = Ok out1 /\ build_profile u2 = Ok out2 /\
    (UserPref.stomach_sensitivity u1 = UserPref.stomach_sensitivity u2 ->
     UserPref.purpose u1 = UserPref.purpose u2 ->
     Profile.acidity_level (Output.profile out1)
     = Profile.acidity_level (Output.profile out2)) /\
    (UserPref.caffeine_sensitivity u1 = UserPref.caffeine_sensitivity u2 ->
     UserPref.time_of_day u1 = UserPref.time_of_day u2 ->
     UserPref.purpose u1 = UserPref.purpose u2 ->
     Profile.caffeine_tendency (Output.profile out1)
     = Profile.caffeine_tendency (Output.profile out2)) /\
    (UserPref.stomach_sensitivity u1 = UserPref.stomach_sensitivity u2 ->
     UserPref.time_of_day u1 = UserPref.time_of_day u2 ->
     UserPref.purpose u1 = UserPref.purpose u2 ->
     UserPref.brew_method u1 = UserPref.brew_method u2 ->
     UserPref.flavor_direction u1 = UserPref.flavor_direction u2 ->
     Profile.roast_level (Output.profile out1)
     = Profile.roast_level (Output.profile out2)) /\
    (UserPref.flavor_direction u1 = UserPref.flavor_direction u2 ->
     Profile.flavor_direction (Output.profile out1)
     = Profile.flavor_direction (Output.profile out2) /\
     Profile.process_preference (Output.profile out1)
     = Profile.process_preference (Output.profile out2)) /\
    (UserPref.brew_method u1 = UserPref.brew_method u2 ->
     Profile.brew_suitability (Output.profile out1)
     = Profile.brew_suitability (Output.profile out2)) /\
    (UserPref.stomach_sensitivity u1 = UserPref.stomach_sensitivity u2 ->
     UserPref.caffeine_sensitivity u1 = UserPref.caffeine_sensitivity u2 ->
     Profile.bean_preference (Output.profile out1)
     = Profile.bean_preference (Output.profile out2)).
Proof.
  eexists _, _. split; [apply build_profile_expected |].
  split; [apply build_profile_expected |].
  destruct u1 as [s1 c1 t1 p1 f1 b1], u2 as [s2 c2 t2 p2 f2 b2].
  cbn [Output.profile Profile.acidity_level Profile.caffeine_tendency
         Profile.roast_level Profile.flavor_direction
         Profile.process_preference Profile.brew_suitability
         Profile.bean_preference UserPref.stomach_sensitivity
         UserPref.caffeine_sensitivity UserPref.time_of_day UserPref.purpose
         UserPref.flavor_direction UserPref.brew_method].
  split; [intros; subst; same_answers |].
  split; [intros; subst; same_answers |].
  split; [intros; subst; same_answers |].
  split; [intros; subst; split; same_answers |].
  split; [intros; subst; same_answers |].
  intros -> ->. unfold overridden.
  cbn [UserPref.stomach_sensitivity UserPref.caffeine_sensitivity].
  replace (resolved (expected_scores (UserPref.Build s2 c2 t1 p1 f1 b1))
             "bean_pref")
    with (resolved (expected_scores (UserPref.Build s2 c2 t2 p2 f2 b2))
            "bean_pref"); [reflexivity |].
  same_answers.
Qed.

(* ================================================================== *)
(** ** Brew suitability and bean preference *)

Lemma eqb_unknown (table : Dict.t Rule) key v :
  Dict.contains key table = true ->
  Dict.contains v table = false ->
  String.eqb v key = false.
Proof.
  intros Hkey Hv. destruct (String.eqb_spec v key) as [-> | _];
    [congruence | reflexivity].
Qed.

Lemma answers_total_brew user l :
  answers_total user "brew" l
  = field_delta ("brew_method", UserPref.brew_method user) "brew" l.
Proof.
  unfold answers_total.
  rewrite total_delta_touching, flavor_total_silent by reflexivity.
  destruct user as [s c t p f b].
  change (touching "brew"
            (single_choice_fields (UserPref.Build s c t p f b)))
    with [("brew_method", b)].
  unfold total_delta, Zsum. cbn [map fold_right UserPref.brew_method]. lia.
Qed.

Lemma answers_total_bean user l :
  answers_total user "bean_pref" l
  = field_delta ("stomach_sensitivity", UserPref.stomach_sensitivity user)
      "bean_pref" l
    + field_delta ("caffeine_sensitivity", UserPref.caffeine_sensitivity user)
        "bean_pref" l.
Proof.
  unfold answers_total.
  rewrite total_delta_touching, flavor_total_silent by reflexivity.
  destruct user as [s c t p f b].
  change (touching "bean_pref"
            (single_choice_fields (UserPref.Build s c t p f b)))
    with [("stomach_sensitivity", s); ("caffeine_sensitivity", c)].
  unfold total_delta, Zsum.
  cbn [map fold_right UserPref.stomach_sensitivity
         UserPref.caffeine_sensitivity].
  lia.
Qed.

(** Case analysis on the value [v] of field [f]: one of the three keys of
    the rules of the field, or a value without a rule, which adds nothing
    and is not "high". *)
Ltac answer_cases v f :=
  let E := fresh "E" in
  destruct (Dict.contains v (field_rules f)) eqn:E;
  [ apply contains_In_keys in E; vm_compute in E;
    destruct E as [E | [E | [E | []]]]; subst v
  | try rewrite (eqb_unknown (field_rules f) "high" v eq_refl E);
    unfold field_delta; cbn [fst snd];
    rewrite ?(rule_delta_unknown (field_rules f) v _ _ E) ].

(** X12 (brew suitability): the brew label of the profile is the brew
    method that the user gave, when it is filter, espresso or both, and
    "filter" for any other value; no other answer has a say. *)
Theorem brew_suitability_echoes_brew_method user :
  exists out,
    build_profile user = Ok out /\
    Profile.brew_suitability (Output.profile out)
    = Some (if Dict.contains (UserPref.brew_method user)
                 (field_rules "brew_method")
            then UserPref.brew_method user else "filter").
Proof.
  eexists. split; [apply build_profile_expected |].
  cbn [Output.profile Profile.brew_suitability].
  change (resolved (expected_scores user) "brew")
    with (argmax_label
            [ ("filter", answers_total user "brew" "filter");
              ("espresso", answers_total user "brew" "espresso");
              ("both", answers_total user "brew" "both") ]).
  rewrite !answers_total_brew.
  destruct user as [s c t p f b]. cbn [UserPref.brew_method].
  answer_cases b "brew_method"; reflexivity.
Qed.

(** X13 (the overrides never fire): the bean preference that
    [build_profile] returns is always the arg-max label of the bean_pref
    row of the returned scoreboard; the two overrides never change
    it. *)
Theorem override_never_changes_bean_preference user :
  exists out,
    build_profile user = Ok out /\
    Profile.bean_preference (Output.profile out)
    = resolved (Output.scores out) "bean_pref".
Proof.
  eexists. split; [apply build_profile_expected |].
  cbn [Output.profile Output.scores Profile.bean_preference].
  change (resolved (expected_scores user) "bean_pref")
    with (argmax_label
            [ ("arabica", answers_total user "bean_pref" "arabica");
              ("blend", answers_total user "bean_pref" "blend");
              ("robusta", answers_total user "bean_pref" "robusta") ]).
  rewrite !answers_total_bean. unfold overridden.
  destruct user as [s c t p f b].
  cbn [UserPref.stomach_sensitivity UserPref.caffeine_sensitivity].
  answer_cases s "stomach_sensitivity";
    answer_cases c "caffeine_sensitivity"; reflexivity.
Qed.

(** X14 (high sensitivity): with a caffeine sensitivity or a stomach
    sensitivity of "high" the bean preference is "arabica". *)
Theorem high_sensitivity_gives_arabica user :
  UserPref.caffeine_sensitivity user = "high" \/
  UserPref.stomach_sensitivity user = "high" ->
  exists out,
    build_profile user = Ok out /\
    Profile.bean_preference (Output.profile out) = Some "arabica".
Proof.
  intros Hhigh.
  eexists. split; [apply build_profile_expected |].
  cbn [Output.profile Profile.bean_preference].
  change (resolved (expected_scores user) "bean_pref")
    with (argmax_label
            [ ("arabica", answers_total user "bean_pref" "arabica");
              ("blend", answers_total user "bean_pref" "blend");
              ("robusta", answers_total user "bean_pref" "robusta") ]).
  rewrite !answers_total_bean. unfold overridden.
  destruct user as [s c t p f b].
  cbn [UserPref.stomach_sensitivity UserPref.caffeine_sensitivity] in *.
  destruct Hhigh as [-> | ->].
  - answer_cases s "stomach_sensitivity"; reflexivity.
  - answer_cases c "caffeine_sensitivity"; reflexivity.
Qed.

Lemma high_sensitivity_gives_arabica_witness :
  (UserPref.caffeine_sensitivity
     (UserPref.Build "high" "low" "morning" "focus" ["spicy"] "espresso")
   = "high" \/
   UserPref.stomach_sensitivity
     (UserPref.Build "high" "low" "morning" "focus" ["spicy"] "espresso")
   = "high") /\
  exists out,
    build_profile
      (UserPref.Build "high" "low" "morning" "focus" ["spicy"] "espresso")
    = Ok out /\
    Profile.bean_preference (Output.profile out) = Some "arabica".
Proof.
  split; [right; reflexivity |].
  apply (high_sensitivity_gives_arabica
           (UserPref.Build "high" "low" "morning" "focus" ["spicy"] "espresso")).
  right. reflexivity.
Defined.

(* ================================================================== *)
(** ** The resolved flavor *)

Lemma argmax_label_max (m : score_map) k :
  argmax_label m = Some k ->
  exists v, In (k, v) m /\ forall e, In e m -> snd e <= v.
Proof.
  destruct m as [| [k0 v0] items]; [discriminate |].
  destruct (argmax_loop_first_max items [] k0 v0 [])
    as (b' & k' & v' & a' & Hrun & Heq & Hb' & Ha'); [constructor .. |].
  unfold argmax_label. cbn [argmax_loop]. rewrite Hrun. cbn [option_map fst].
  intros [= <-]. exists v'. cbn [app] in Heq. rewrite Heq. split.
  - rewrite in_app_iff. right. now left.
  - intros e. rewrite in_app_iff. cbn [In]. rewrite Forall_forall in Hb', Ha'.
    intros [Hin | [<- | Hin]]; [| cbn [snd]; lia | now apply Ha'].
    specialize (Hb' _ Hin). lia.
Qed.

Lemma answers_total_flavor user l :
  answers_total user "flavor" l
  = total_delta flavor_delta (UserPref.flavor_direction user) "flavor" l.
Proof.
  unfold answers_total. rewrite total_delta_touching.
  destruct user as [s c t p f b].
  change (touching "flavor"
            (single_choice_fields (UserPref.Build s c t p f b)))
    with (@nil (string * string)).
  reflexivity.
Qed.

(** A flavor rule adds 3 to its own flavor label and nothing to the
    others. *)
Lemma flavor_delta_flavor g l :
  flavor_delta g "flavor" l
  = if Dict.contains g FLAVOR_RULES && String.eqb l g then 3 else 0.
Proof.
  destruct (Dict.contains g FLAVOR_RULES) eqn:E; cbn [andb].
  - apply contains_In_keys in E. vm_compute in E.
    destruct E as [E | [E | [E | [E | [E | []]]]]]; subst g;
      unfold flavor_delta, rule_delta; cbn;
      match goal with
      | |- context [String.eqb l ?x] => destruct (String.eqb l x)
      end; reflexivity.
  - unfold flavor_delta. now rewrite rule_delta_unknown.
Qed.

Lemma flavor_total_count fs l :
  total_delta flavor_delta fs "flavor" l
  = 3 * Z.of_nat (count_occ string_dec (known_flavors fs) l).
Proof.
  unfold total_delta, Zsum, known_flavors.
  induction fs as [| g fs IH]; cbn [map fold_right filter count_occ];
    [reflexivity |].
  rewrite IH, flavor_delta_flavor.
  destruct (Dict.contains g FLAVOR_RULES); cbn [andb count_occ]; [| lia].
  destruct (String.eqb_spec l g) as [-> | Hne].
  - destruct (string_dec g g); [lia | congruence].
  - destruct (string_dec g l); [congruence | lia].
Qed.

(** X15 (the resolved flavor): the flavor label of the profile is a
    flavor that the user selected most often among the flavors that have
    a rule; when no selected flavor has a rule it is "nutty_chocolate". *)
Theorem resolved_flavor_is_a_most_selected_one user :
  exists out f,
    build_profile user = Ok out /\
    Profile.flavor_direction (Output.profile out) = Some f /\
    (forall g,
        (count_occ string_dec
           (known_flavors (UserPref.flavor_direction user)) g
         <= count_occ string_dec
              (known_flavors (UserPref.flavor_direction user)) f)%nat) /\
    (known_flavors (UserPref.flavor_direction user) <> [] ->
     In f (known_flavors (UserPref.flavor_direction user))) /\
    (known_flavors (UserPref.flavor_direction user) = [] ->
     f = "nutty_chocolate").
Proof.
  set (fs := UserPref.flavor_direction user).
  set (row := map (fun l => (l, answers_total user "flavor" l)) FLAVOR).
  assert (Hres : resolved (expected_scores user) "flavor" = argmax_label row)
    by reflexivity.
  destruct (argmax_label_In row) as (f & Hf & _); [discriminate |].
  destruct (argmax_label_max row f Hf) as (v & Hin & Hmax).
  assert (Hv : v = 3 * Z.of_nat (count_occ string_dec (known_flavors fs) f)).
  { unfold row in Hin. apply in_map_iff in Hin.
    destruct Hin as (l & [= -> <-] & _).
    now rewrite answers_total_flavor, flavor_total_count. }
  assert (Hmost : forall g,
             (count_occ string_dec (known_flavors fs) g
              <= count_occ string_dec (known_flavors fs) f)%nat).
  { intros g.
    destruct (in_dec string_dec g FLAVOR) as [Hg | Hg].
    - assert (Hle := Hmax (g, answers_total user "flavor" g)).
      cbn [snd] in Hle.
      rewrite answers_total_flavor, flavor_total_count in Hle. fold fs in Hle.
      assert (In (g, 3 * Z.of_nat (count_occ string_dec (known_flavors fs) g))
                row).
      { unfold row. apply in_map_iff. exists g. split; [| exact Hg].
        now rewrite answers_total_flavor, flavor_total_count. }
      specialize (Hle H). lia.
    - replace (count_occ string_dec (known_flavors fs) g) with 0%nat; [lia |].
      symmetry. apply count_occ_not_In. intros Hk. apply Hg.
      unfold known_flavors in Hk. apply filter_In in Hk.
      destruct Hk as [_ Hk]. apply contains_In_keys in Hk. exact Hk. }
  eexists. exists f. split; [apply build_profile_expected |].
  cbn [Output.profile Profile.flavor_direction]. rewrite Hres.
  split; [exact Hf |]. split; [exact Hmost |]. split.
  - intros Hne. destruct (known_flavors fs) as [| g rest] eqn:Hk;
      [congruence |].
    specialize (Hmost g).
    assert (Hg : (count_occ string_dec (g :: rest) g > 0)%nat)
      by (apply (count_occ_In string_dec); now left).
    apply (count_occ_In string_dec). lia.
  - intros Hnil.
    assert (Hrow : row = zero_scores FLAVOR).
    { unfold row, zero_scores. apply map_ext. intros l.
      rewrite answers_total_flavor, flavor_total_count. fold fs.
      now rewrite Hnil. }
    rewrite Hrow in Hf. vm_compute in Hf. congruence.
Qed.

(* ================================================================== *)
(** ** The first reason *)

Lemma of_priority_app p l1 l2 :
  of_priority p (l1 ++ l2) = of_priority p l1 ++ of_priority p l2.
Proof. apply filter_app. Qed.

Lemma of_priority_below p l :
  Forall (fun e => snd e < p) l -> of_priority p l = [].
Proof.
  unfold of_priority. induction 1 as [| e l He _ IH]; cbn [filter];
    [reflexivity |].
  destruct (Z.eqb_spec (snd e) p); [lia | exact IH].
Qed.

(** An entry that beats every entry in front of it and is not beaten by
    any entry behind it is ranked first. *)
Lemma sorted_desc_head before x after :
  Forall (fun e => snd e < snd x) before ->
  Forall (fun e => snd e <= snd x) after ->
  sorted_desc (before ++ x :: after) = x :: sorted_desc (before ++ after).
Proof.
  intros Hb Ha. apply stable_descending_unique.
  - apply sorted_desc_sorted.
  - constructor; [apply sorted_desc_sorted |].
    rewrite Forall_forall. intros e Hin.
    apply (Permutation_in _ (sorted_desc_perm _)) in Hin.
    rewrite in_app_iff in Hin. rewrite Forall_forall in Hb, Ha.
    unfold priority_ge.
    destruct Hin as [Hin | Hin]; [specialize (Hb _ Hin) | specialize (Ha _ Hin)];
      lia.
  - intros p. rewrite sorted_desc_stable.
    change (x :: after) with ([x] ++ after).
    change (x :: sorted_desc (before ++ after))
      with ([x] ++ sorted_desc (before ++ after)).
    rewrite !of_priority_app, sorted_desc_stable, of_priority_app.
    destruct (Z.eq_dec (snd x) p) as [<- | Hne].
    + now rewrite (of_priority_below _ _ Hb).
    + assert (Hx : of_priority p [x] = []).
      { unfold of_priority. cbn [filter].
        destruct (Z.eqb_spec (snd x) p); [contradiction | reflexivity]. }
      now rewrite Hx.
Qed.

Lemma rule_reason_Forall (P : string * Z -> Prop) (table : Dict.t Rule) v :
  Forall P (table_reasons table) -> Forall P (rule_reason table v).
Proof.
  rewrite !Forall_forall. intros H x Hin. now apply H, (rule_reason_In table v).
Qed.

Ltac priorities_of_table :=
  apply rule_reason_Forall; vm_compute; repeat constructor; discriminate.

(** X16 (the first reason): when the caffeine sensitivity is "high", the
    first reason that [build_profile] returns is the explanation of that
    rule, whatever the other answers are: no other rule has a priority
    as high as its 120. *)
Theorem high_caffeine_reason_comes_first user :
  UserPref.caffeine_sensitivity user = "high" ->
  exists out rest,
    build_profile user = Ok out /\
    Output.reasons out
    = "High caffeine sensitivity → strongly prioritize low caffeine; avoid robusta-heavy coffee."
      :: rest.
Proof.
  intros Hc. eexists. eexists. split; [apply build_profile_expected |].
  cbn [Output.reasons]. rewrite top_reasons_nonneg by lia.
  unfold collected_reasons, single_choice_fields. cbn [flat_map].
  rewrite Hc.
  change (field_reason ("caffeine_sensitivity", "high"))
    with [("High caffeine sensitivity → strongly prioritize low caffeine; avoid robusta-heavy coffee.", 120)].
  rewrite <- !app_assoc. cbn [app].
  rewrite sorted_desc_head.
  - cbn [Z.to_nat Pos.to_nat Pos.iter_op Nat.add firstn map fst]. reflexivity.
  - cbn [snd]. unfold field_reason. cbn [fst snd]. priorities_of_table.
  - cbn [snd]. rewrite !Forall_app. unfold field_reason. cbn [fst snd].
    repeat split; try priorities_of_table.
    rewrite Forall_forall. intros x Hin. apply in_flat_map in Hin.
    destruct Hin as (f & _ & Hin).
    assert (H : Forall (fun e => snd e <= 120) (flavor_reason f))
      by priorities_of_table.
    rewrite Forall_forall in H. now apply H.
Qed.

Lemma high_caffeine_reason_comes_first_witness :
  UserPref.caffeine_sensitivity scenarioA = "high" /\
  exists out rest,
    build_profile scenarioA = Ok out /\
    Output.reasons out
    = "High caffeine sensitivity → strongly prioritize low caffeine; avoid robusta-heavy coffee."
      :: rest.
Proof.
  split; [reflexivity |].
  apply (high_caffeine_reason_comes_first scenarioA). reflexivity.
Defined.

(* ================================================================== *)
(** ** What a high sensitivity does to caffeine and acidity *)

Lemma answers_total_caffeine user l :
  answers_total user "caffeine" l
  = field_delta ("caffeine_sensitivity", UserPref.caffeine_sensitivity user)
      "caffeine" l
    + field_delta ("time_of_day", UserPref.time_of_day user) "caffeine" l
    + field_delta ("purpose", UserPref.purpose user) "caffeine" l.
Proof.
  unfold answers_total.
  rewrite total_delta_touching, flavor_total_silent by reflexivity.
  destruct user as [s c t p f b].
  change (touching "caffeine"
            (single_choice_fields (UserPref.Build s c t p f b)))
    with [("caffeine_sensitivity", c); ("time_of_day", t); ("purpose", p)].
  unfold total_delta, Zsum.
  cbn [map fold_right UserPref.caffeine_sensitivity UserPref.time_of_day
         UserPref.purpose].
  lia.
Qed.

Lemma answers_total_acidity user l :
  answers_total user "acidity" l
  = field_delta ("stomach_sensitivity", UserPref.stomach_sensitivity user)
      "acidity" l
    + field_delta ("purpose", UserPref.purpose user) "acidity" l.
Proof.
  unfold answers_total.
  rewrite total_delta_touching, flavor_total_silent by reflexivity.
  destruct user as [s c t p f b].
  change (touching "acidity"
            (single_choice_fields (UserPref.Build s c t p f b)))
    with [("stomach_sensitivity", s); ("purpose", p)].
  unfold total_delta, Zsum.
  cbn [map fold_right UserPref.stomach_sensitivity UserPref.purpose].
  lia.
Qed.

(** X23 (high caffeine sensitivity): with a caffeine sensitivity of
    "high" the caffeine label of the profile is "low", whatever the time
    of day and the purpose are; where "medium" draws level, "low" wins
    as the first label. *)
Theorem high_caffeine_sensitivity_gives_low_caffeine user :
  UserPref.caffeine_sensitivity user = "high" ->
  exists out,
    build_profile user = Ok out /\
    Profile.caffeine_tendency (Output.profile out) = Some "low".
Proof.
  intros Hc.
  eexists. split; [apply build_profile_expected |].
  cbn [Output.profile Profile.caffeine_tendency].
  change (resolved (expected_scores user) "caffeine")
    with (argmax_label
            [ ("low", answers_total user "caffeine" "low");
              ("medium", answers_total user "caffeine" "medium");
              ("high", answers_total user "caffeine" "high") ]).
  rewrite !answers_total_caffeine.
  destruct user as [s c t p f b].
  cbn [UserPref.caffeine_sensitivity UserPref.time_of_day UserPref.purpose]
    in *.
  subst c.
  answer_cases t "time_of_day"; answer_cases p "purpose"; reflexivity.
Qed.

Lemma high_caffeine_sensitivity_gives_low_caffeine_witness :
  UserPref.caffeine_sensitivity
    (UserPref.Build "low" "high" "morning" "focus" [] "espresso") = "high" /\
  exists out,
    build_profile (UserPref.Build "low" "high" "morning" "focus" [] "espresso")
    = Ok out /\
    Profile.caffeine_tendency (Output.profile out) = Some "low".
Proof.
  split; [reflexivity |].
  apply (high_caffeine_sensitivity_gives_low_caffeine
           (UserPref.Build "low" "high" "morning" "focus" [] "espresso")).
  reflexivity.
Defined.

(** X24 (high stomach sensitivity): with a stomach sensitivity of "high"
    the acidity label of the profile is "low", whatever the purpose. *)
Theorem high_stomach_sensitivity_gives_low_acidity user :
  UserPref.stomach_sensitivity user = "high" ->
  exists out,
    build_profile user = Ok out /\
    Profile.acidity_level (Output.profile out) = Some "low".
Proof.
  intros Hs.
  eexists. split; [apply build_profile_expected |].
  cbn [Output.profile Profile.acidity_level].
  change (resolved (expected_scores user) "acidity")
    with (argmax_label
            [ ("low", answers_total user "acidity" "low");
              ("medium", answers_total user "acidity" "medium");
              ("high", answers_total user "acidity" "high") ]).
  rewrite !answers_total_acidity.
  destruct user as [s c t p f b].
  cbn [UserPref.stomach_sensitivity UserPref.purpose] in *.
  subst s.
  answer_cases p "purpose"; reflexivity.
Qed.

Lemma high_stomach_sensitivity_gives_low_acidity_witness :
  UserPref.stomach_sensitivity
    (UserPref.Build "high" "low" "morning" "balanced" [] "both") = "high" /\
  exists out,
    build_profile (UserPref.Build "high" "low" "morning" "balanced" [] "both")
    = Ok out /\
    Profile.acidity_level (Output.profile out) = Some "low".
Proof.
  split; [reflexivity |].
  apply (high_stomach_sensitivity_gives_low_acidity
           (UserPref.Build "high" "low" "morning" "balanced" [] "both")).
  reflexivity.
Defined.

(* ================================================================== *)
(** ** The cell helpers of the cleaning pipeline *)

Module PipelineFacts.
Import Pipeline.

Lemma filter_twice {A : Type} (p q : A -> bool) (l : list A) :
  filter p (filter q l) = filter (fun x => q x && p x) l.
Proof.
  induction l as [| x l IH]; cbn [filter]; [reflexivity |].
  destruct (q x); cbn [filter andb]; [destruct (p x) |]; now rewrite IH.
Qed.

Section CellFacts.

Variable unicode_space : N -> bool.
Variable lower : pystr -> pystr.
Variable max_str_digits : nat.

Ltac compare_codes :=
  repeat match goal with
         | |- context [(?a <=? ?b)%N] => destruct (N.leb_spec a b)
         | |- context [(?a <? ?b)%N] => destruct (N.ltb_spec a b)
         | |- context [(?a =? ?b)%N] => destruct (N.eqb_spec a b)
         end;
  cbn [andb orb negb]; try reflexivity; try discriminate; try lia.

Lemma space_is_space : isspace unicode_space 32 = true.
Proof. reflexivity. Qed.

(** What the three substitutions of [clean_price] keep of a character. *)
Lemma price_filters_keep_digits c :
  negb ((c =? 82)%N || (c =? 112)%N || isspace unicode_space c || (c =? 46)%N)
  && (is_digit c || (c =? 44)%N) && negb (c =? 44)%N
  = is_digit c.
Proof. unfold is_digit, isspace. compare_codes. Qed.

Lemma clean_price_digits s :
  clean_price unicode_space max_str_digits (Some s)
  = int_of_digits max_str_digits (digits_of s).
Proof.
  unfold clean_price, digits_of. rewrite !filter_twice. f_equal.
  apply filter_ext. intros c. rewrite andb_assoc.
  apply price_filters_keep_digits.
Qed.

Lemma decimal_from_nonneg digits acc :
  0 <= acc ->
  0 <= fold_left (fun a c => 10 * a + Z.of_N (c - 48)) digits acc.
Proof.
  revert acc. induction digits as [| c digits IH]; intros acc Hacc;
    cbn [fold_left]; [exact Hacc |].
  apply IH. lia.
Qed.

(** X17 (a price is read from the digits alone): [clean_price] returns
    what [int] makes of the ASCII digits of the cell, in their order;
    every other character is dropped, a minus sign and both the point
    and the comma included. *)
Theorem clean_price_reads_digits_only s :
  clean_price unicode_space max_str_digits (Some s)
  = int_of_digits max_str_digits (digits_of s)
  /\ clean_price unicode_space max_str_digits (Some s)
     = clean_price unicode_space max_str_digits (Some (digits_of s)).
Proof.
  split; [apply clean_price_digits |].
  rewrite !clean_price_digits. unfold digits_of.
  rewrite filter_twice. f_equal. apply filter_ext. intros c.
  now rewrite andb_diag.
Qed.

(** X18 (when a price is missing): [clean_price] returns NaN exactly for
    a cell without ASCII digit and for a cell with more digits than the
    digit limit of [int]; any other cell gets the base-ten value of its
    digits, which is never negative. *)
Theorem clean_price_nan_or_nonneg s :
  (clean_price unicode_space max_str_digits (Some s) = None <->
   digits_of s = [] \/
   (max_str_digits <> 0%nat /\
    (max_str_digits < List.length (digits_of s))%nat)) /\
  (forall v,
      clean_price unicode_space max_str_digits (Some s) = Some v ->
      v = decimal (digits_of s) /\ 0 <= v).
Proof.
  rewrite clean_price_digits. unfold int_of_digits.
  destruct (digits_of s) as [| c ds] eqn:Hd.
  - cbn [List.length Nat.eqb]. split; [tauto | discriminate].
  - cbn [List.length Nat.eqb].
    destruct (Nat.eqb_spec max_str_digits 0) as [Hz | Hz]; cbn [negb andb].
    + split.
      * split; [discriminate | intros [H | [H _]]; [discriminate H | lia]].
      * intros v [= <-]. split; [reflexivity |].
        now apply decimal_from_nonneg.
    + destruct (Nat.ltb_spec max_str_digits (S (List.length ds))) as [Hlt | Hge].
      * split; [split; auto | discriminate].
      * split.
        -- split; [discriminate | intros [H | [_ H]]; [discriminate H | lia]].
        -- intros v [= <-]. split; [reflexivity |].
           now apply decimal_from_nonneg.
Qed.

(** Whitespace handling of [clean_text]. *)

Lemma collapse_single_spaced b text :
  single_spaced unicode_space b (collapse_spaces unicode_space b text) = true.
Proof.
  revert b. induction text as [| c rest IH]; intros b;
    cbn [collapse_spaces]; [reflexivity |].
  destruct (isspace unicode_space c) eqn:Hc.
  - destruct b; [apply IH |]. cbn [single_spaced].
    rewrite space_is_space, IH. reflexivity.
  - cbn [single_spaced]. rewrite Hc. apply IH.
Qed.

Lemma lstrip_single_spaced b b' text :
  single_spaced unicode_space b text = true ->
  single_spaced unicode_space b' (lstrip unicode_space text) = true.
Proof.
  revert b. induction text as [| c rest IH]; intros b; cbn [lstrip];
    [reflexivity |].
  cbn [single_spaced]. destruct (isspace unicode_space c) eqn:Hc.
  - intros H. apply andb_prop in H. destruct H as [_ H]. now apply (IH true).
  - intros H. cbn [single_spaced]. now rewrite Hc.
Qed.

Lemma rstrip_single_spaced b text :
  single_spaced unicode_space b text = true ->
  single_spaced unicode_space b (rstrip unicode_space text) = true.
Proof.
  revert b. induction text as [| c rest IH]; intros b; cbn [rstrip];
    [reflexivity |].
  cbn [single_spaced]. intros H.
  destruct (rstrip unicode_space rest) as [| k kept] eqn:Hr.
  - destruct (isspace unicode_space c) eqn:Hc; [reflexivity |].
    cbn [single_spaced]. now rewrite Hc.
  - cbn [single_spaced]. fold (single_spaced unicode_space).
    destruct (isspace unicode_space c) eqn:Hc.
    + apply andb_prop in H. destruct H as [H1 H2]. rewrite H1. cbn [andb].
      exact (IH true H2).
    + exact (IH false H).
Qed.

Lemma lstrip_head text :
  lstrip unicode_space text <> [] ->
  isspace unicode_space (hd 0%N (lstrip unicode_space text)) = false.
Proof.
  induction text as [| c rest IH]; cbn [lstrip]; [congruence |].
  destruct (isspace unicode_space c) eqn:Hc; [exact IH |].
  intros _. exact Hc.
Qed.

Lemma rstrip_head text :
  isspace unicode_space (hd 0%N text) = false ->
  hd 0%N (rstrip unicode_space text) = hd 0%N text.
Proof.
  destruct text as [| c rest]; [reflexivity |]. cbn [hd rstrip]. intros Hc.
  destruct (rstrip unicode_space rest); [now rewrite Hc | reflexivity].
Qed.

Lemma rstrip_nil_head text :
  rstrip unicode_space text <> [] -> text <> [].
Proof. destruct text; [cbn; congruence | discriminate]. Qed.

Lemma rstrip_last text :
  rstrip unicode_space text <> [] ->
  isspace unicode_space (last (rstrip unicode_space text) 0%N) = false.
Proof.
  induction text as [| c rest IH]; cbn [rstrip]; [congruence |].
  destruct (rstrip unicode_space rest) as [| k kept] eqn:Hr.
  - destruct (isspace unicode_space c) eqn:Hc; [congruence |].
    intros _. exact Hc.
  - intros _. change (last (c :: k :: kept) 0%N) with (last (k :: kept) 0%N).
    apply IH. discriminate.
Qed.

Lemma collapse_nonspace b text :
  filter (fun c => negb (isspace unicode_space c)) (collapse_spaces unicode_space b text)
  = filter (fun c => negb (isspace unicode_space c)) text.
Proof.
  revert b. induction text as [| c rest IH]; intros b;
    cbn [collapse_spaces]; [reflexivity |].
  destruct (isspace unicode_space c) eqn:Hc.
  - cbn [filter]. rewrite Hc. cbn [negb].
    destruct b; [apply IH |]. cbn [filter]. rewrite space_is_space.
    cbn [negb]. apply IH.
  - cbn [filter]. rewrite Hc. cbn [negb]. now rewrite IH.
Qed.

Lemma lstrip_nonspace text :
  filter (fun c => negb (isspace unicode_space c)) (lstrip unicode_space text) = filter (fun c => negb (isspace unicode_space c)) text.
Proof.
  induction text as [| c rest IH]; cbn [lstrip]; [reflexivity |].
  destruct (isspace unicode_space c) eqn:Hc; [| reflexivity].
  cbn [filter]. rewrite Hc. exact IH.
Qed.

Lemma rstrip_nonspace text :
  filter (fun c => negb (isspace unicode_space c)) (rstrip unicode_space text) = filter (fun c => negb (isspace unicode_space c)) text.
Proof.
  induction text as [| c rest IH]; cbn [rstrip]; [reflexivity |].
  destruct (rstrip unicode_space rest) as [| k kept] eqn:Hr.
  - cbn [filter] in *. rewrite <- IH.
    destruct (isspace unicode_space c) eqn:Hc; cbn [filter negb];
      [reflexivity | now rewrite Hc].
  - cbn [filter] in *. now rewrite IH.
Qed.

Lemma collapse_fixed b text :
  single_spaced unicode_space b text = true ->
  collapse_spaces unicode_space b text = text.
Proof.
  revert b. induction text as [| c rest IH]; intros b;
    cbn [collapse_spaces single_spaced]; [reflexivity |].
  destruct (isspace unicode_space c) eqn:Hc.
  - intros H. apply andb_prop in H. destruct H as [H H3].
    apply andb_prop in H. destruct H as [H1 H2].
    apply N.eqb_eq in H1. destruct b; [discriminate H2 |].
    subst c. now rewrite (IH true H3).
  - intros H. now rewrite (IH false H).
Qed.

Lemma lstrip_fixed text :
  isspace unicode_space (hd 0%N text) = false ->
  lstrip unicode_space text = text.
Proof.
  destruct text as [| c rest]; [reflexivity |]. cbn [hd lstrip].
  now intros ->.
Qed.

Lemma rstrip_fixed text :
  text <> [] ->
  isspace unicode_space (last text 0%N) = false ->
  rstrip unicode_space text = text.
Proof.
  induction text as [| c rest IH]; [congruence |]. intros _ Hlast.
  cbn [rstrip]. destruct rest as [| k rest'].
  - cbn [rstrip last] in *. now rewrite Hlast.
  - change (last (c :: k :: rest') 0%N) with (last (k :: rest') 0%N) in Hlast.
    rewrite IH by (discriminate || exact Hlast). reflexivity.
Qed.

(** The result of [clean_text] on a string, with what is known of it. *)
Lemma clean_string_normal text :
  let r := strip unicode_space (collapse_spaces unicode_space false text) in
  single_spaced unicode_space false r = true /\
  (r <> [] ->
   isspace unicode_space (hd 0%N r) = false /\
   isspace unicode_space (last r 0%N) = false).
Proof.
  intros r. unfold r, strip. split.
  - apply rstrip_single_spaced, (lstrip_single_spaced false),
      collapse_single_spaced.
  - intros Hne. split; [| now apply rstrip_last].
    pose proof (rstrip_nil_head _ Hne) as Hl.
    pose proof (lstrip_head _ Hl) as Hh.
    now rewrite rstrip_head.
Qed.

(** X19 (normal form of a cleaned text): in the text that [clean_text]
    returns every whitespace character is a plain space, no two spaces
    are adjacent, and the text neither starts nor ends with one. *)
Theorem clean_text_normal_form text :
  exists r,
    clean_text unicode_space (Some text) = Some r /\
    single_spaced unicode_space false r = true /\
    (r <> [] ->
     isspace unicode_space (hd 0%N r) = false /\
     isspace unicode_space (last r 0%N) = false).
Proof.
  eexists. split; [reflexivity |]. apply clean_string_normal.
Qed.

(** X20 (cleaning twice): [clean_text] is idempotent; a missing value
    stays missing. *)
Theorem clean_text_idempotent text :
  clean_text unicode_space (clean_text unicode_space text)
  = clean_text unicode_space text.
Proof.
  destruct text as [text |]; [| reflexivity]. cbn [clean_text]. f_equal.
  destruct (clean_string_normal text) as [Hs Hends].
  set (r := strip unicode_space (collapse_spaces unicode_space false text))
    in *.
  rewrite (collapse_fixed false r Hs). unfold strip.
  destruct r as [| c rest] eqn:Hr; [reflexivity |].
  destruct Hends as [Hh Hl]; [discriminate |].
  rewrite (lstrip_fixed _ Hh).
  apply rstrip_fixed; [discriminate | exact Hl].
Qed.

(** X21 (nothing but whitespace changes): [clean_text] keeps every
    character that is not whitespace, in the same order. *)
Theorem clean_text_keeps_other_characters text :
  exists r,
    clean_text unicode_space (Some text) = Some r /\
    filter (fun c => negb (isspace unicode_space c)) r = filter (fun c => negb (isspace unicode_space c)) text.
Proof.
  eexists. split; [reflexivity |]. unfold strip.
  now rewrite rstrip_nonspace, lstrip_nonspace, collapse_nonspace.
Qed.

(** Substring search. *)

Lemma starts_with_spec keyword name :
  starts_with keyword name = true <-> exists post, name = keyword ++ post.
Proof.
  revert name. induction keyword as [| a keyword IH]; intros name.
  - cbn. split; [intros _; now exists name | reflexivity].
  - destruct name as [| b name]; cbn [starts_with].
    + split; [discriminate | intros [post H]; discriminate H].
    + rewrite andb_true_iff, N.eqb_eq, IH. split.
      * intros [-> [post ->]]. now exists post.
      * intros [post [= -> ->]]. split; [reflexivity | now exists post].
Qed.

Lemma occurs_in_spec keyword name :
  occurs_in keyword name = true <->
  exists pre post, name = pre ++ keyword ++ post.
Proof.
  induction name as [| b name IH]; cbn [occurs_in];
    rewrite orb_true_iff, starts_with_spec.
  - split.
    + intros [[post H] | H]; [| discriminate]. now exists [], post.
    + intros (pre & post & H). left.
      destruct pre; [now exists post | discriminate H].
  - rewrite IH. split.
    + intros [[post H] | (pre & post & H)].
      * now exists [], post.
      * exists (b :: pre), post. now rewrite H.
    + intros (pre & post & H). destruct pre as [| p pre].
      * left. now exists post.
      * right. injection H as _ H. now exists pre, post.
Qed.

(** X22 (what makes a product non-coffee): [is_coffee_product] returns
    [False] exactly for a missing name and for a name whose lowered form
    contains one of the non-coffee keywords; every other name is a
    coffee product, whether or not it contains a coffee keyword. *)
Theorem is_coffee_product_false_iff product_name :
  is_coffee_product lower product_name = false <->
  product_name = None \/
  exists name keyword pre post,
    product_name = Some name /\
    In keyword non_coffee_keywords /\
    lower name = pre ++ keyword ++ post.
Proof.
  destruct product_name as [name |]; cbn [is_coffee_product].
  - destruct (existsb (fun keyword => occurs_in keyword (lower name))
                non_coffee_keywords) eqn:Hnon.
    + split; [intros _ | reflexivity]. right.
      apply existsb_exists in Hnon. destruct Hnon as (keyword & Hin & Hocc).
      apply occurs_in_spec in Hocc. destruct Hocc as (pre & post & Hocc).
      now exists name, keyword, pre, post.
    + split.
      * destruct (existsb _ coffee_keywords); discriminate.
      * intros [H | (name' & keyword & pre & post & [= <-] & Hin & Hocc)];
          [discriminate H |].
        assert (Hex : existsb (fun keyword => occurs_in keyword (lower name))
                        non_coffee_keywords = true).
        { apply existsb_exists. exists keyword. split; [exact Hin |].
          apply occurs_in_spec. now exists pre, post. }
        congruence.
  - split; [now left | reflexivity].
Qed.

End CellFacts.

Example clean_price_rupiah :
  clean_price (fun _ => false) 4300 (Some (of_string "Rp 15.000")) = Some 15000.
Proof. reflexivity. Qed.

Example clean_price_drops_sign_and_decimals :
  clean_price (fun _ => false) 4300 (Some (of_string "-15.000,50"))
  = Some 1500050.
Proof. reflexivity. Qed.

Example clean_text_collapses :
  clean_text (fun _ => false) (Some (of_string "  Kopi   Gayo  "))
  = Some (of_string "Kopi Gayo").
Proof. reflexivity. Qed.

Example coffee_cup_is_not_coffee :
  is_coffee_product (fun s => s) (Some (of_string "kopi cup")) = false
  /\ is_coffee_product (fun s => s) (Some (of_string "xyz")) = true.
Proof. split; reflexivity. Qed.

End PipelineFacts.

(* ================================================================== *)
(** ** The store: what a call of [build_profile] reads and writes *)

Lemma length_write h a d : List.length (Store.write h a d) = List.length h.
Proof.
  revert a. induction h as [| x h IH]; intros [| a]; cbn [Store.write List.length];
    auto.
Qed.

Lemma read_write_same h a d :
  (a < List.length h)%nat -> Store.read (Store.write h a d) a = d.
Proof.
  unfold Store.read. revert a. induction h as [| x h IH]; intros [| a];
    cbn [Store.write List.length nth]; try lia; [reflexivity |].
  intros H. apply IH. lia.
Qed.

Lemma read_write_other h a b d : a <> b -> Store.read (Store.write h a d) b = Store.read h b.
Proof.
  unfold Store.read. revert a b. induction h as [| x h IH]; intros [| a] [| b];
    cbn [Store.write nth]; try reflexivity; try congruence.
  intros H. apply IH. congruence.
Qed.

Lemma read_app_old h l a : (a < List.length h)%nat -> Store.read (h ++ l) a = Store.read h a.
Proof. intros H. unfold Store.read. now apply app_nth1. Qed.

(** Looking a key up in a dict whose values were mapped. *)
Lemma getitem_map_values {V W : Type} (g : V -> W) (d : Dict.t V) k :
  Dict.getitem k (map (fun e => (fst e, g (snd e))) d)
  = match Dict.getitem k d with
    | Ok v => Ok (g v)
    | KeyError k' => KeyError k'
    end.
Proof.
  induction d as [| [k0 v0] d IH]; cbn [map Dict.getitem fst snd];
    [reflexivity |].
  destruct (String.eqb k k0); [reflexivity | exact IH].
Qed.

Lemma contains_map_values {V W : Type} (g : V -> W) (d : Dict.t V) k :
  Dict.contains k (map (fun e => (fst e, g (snd e))) d) = Dict.contains k d.
Proof.
  induction d as [| [k0 v0] d IH]; cbn [map Dict.contains fst snd];
    [reflexivity |].
  destruct (String.eqb k k0); [reflexivity | exact IH].
Qed.

Lemma getitem_In_values {V : Type} (d : Dict.t V) k v :
  Dict.getitem k d = Ok v -> In v (map snd d).
Proof.
  intros H. apply getitem_Ok_In in H.
  change v with (snd (k, v)). now apply in_map.
Qed.

Lemma view_agree h h' (refs : Dict.t Store.addr) :
  (forall a, In a (map snd refs) -> Store.read h' a = Store.read h a) ->
  Store.view h' refs = Store.view h refs.
Proof.
  intros H. unfold Store.view. apply map_ext_in. intros [k a] Hin. cbn [fst snd].
  f_equal. apply H. change a with (snd (k, a)). now apply in_map.
Qed.

(** Writing a row shows in the Store.view as the assignment [scores[dim] = d],
    when no other key refers to the same object. *)
Lemma view_write h (refs : Dict.t Store.addr) dim a d :
  NoDup (map snd refs) ->
  (a < List.length h)%nat ->
  Dict.getitem dim refs = Ok a ->
  Store.view (Store.write h a d) refs = Dict.setitem dim d (Store.view h refs).
Proof.
  intros Hnd Ha. induction refs as [| [k b] refs IH];
    cbn [Dict.getitem Store.view map fst snd Dict.setitem]; [discriminate |].
  cbn [map snd] in Hnd. inversion Hnd as [| ? ? Hnotin Hnd']; subst.
  destruct (String.eqb dim k) eqn:E.
  - intros [= ->]. rewrite (read_write_same h a d Ha). f_equal.
    apply view_agree. intros c Hc. apply read_write_other.
    intros E'. subst c. contradiction.
  - intros Hget. rewrite read_write_other.
    + f_equal. now apply IH.
    + apply getitem_In_values in Hget. intros E'. subst b. contradiction.
Qed.

(** One pass of the inner loop in the store does to the Store.view of the
    scoreboard what [apply_changes] does; it writes to rows of the
    scoreboard only and allocates nothing. *)
Lemma apply_changes_sim (scores : Dict.t Store.addr) dim changes :
  NoDup (map snd scores) ->
  Dict.contains dim scores = true ->
  forall h,
    Forall (fun a => (a < List.length h)%nat) (map snd scores) ->
    exists h',
      Store.apply_changes h scores dim changes = Ok h' /\
      apply_changes dim changes (Store.view h scores) = Ok (Store.view h' scores) /\
      List.length h' = List.length h /\
      forall a, ~ In a (map snd scores) -> Store.read h' a = Store.read h a.
Proof.
  intros Hnd Hdim.
  destruct (contains_true_getitem _ _ Hdim) as [row Hrow].
  induction changes as [| [label delta] rest IH]; intros h Hrows.
  - exists h. repeat split; auto.
  - cbn [Store.apply_changes apply_changes]. rewrite Hrow. cbn [bind].
    unfold Store.view at 1. rewrite getitem_map_values, Hrow. cbn [bind].
    assert (Hin : In row (map snd scores))
      by exact (getitem_In_values _ _ _ Hrow).
    assert (Hlt : (row < List.length h)%nat).
    { rewrite Forall_forall in Hrows. now apply Hrows. }
    destruct (Dict.contains label (Store.read h row)) eqn:Hlab.
    + destruct (contains_true_getitem _ _ Hlab) as [old Hold].
      rewrite Hold. cbn [bind].
      set (h1 := Store.write h row (Dict.setitem label (old + delta) (Store.read h row))).
      destruct (IH h1) as (h' & Hrun & Hpure & Hlen & Hframe).
      { unfold h1. rewrite Forall_forall in *. intros a Ha.
        rewrite length_write. now apply Hrows. }
      exists h'. split; [exact Hrun |]. split; [| split].
      * fold (Store.view h scores). rewrite <- Hpure. f_equal. unfold h1.
        symmetry. now apply view_write.
      * rewrite Hlen. apply length_write.
      * intros a Ha. rewrite (Hframe a Ha). apply read_write_other. congruence.
    + destruct (IH h Hrows) as (h' & Hrun & Hpure & Hlen & Hframe).
      exists h'. repeat split; auto.
Qed.

(** [apply_delta] in the store, for a delta-set whose rows are not rows
    of the scoreboard. *)
Lemma apply_delta_sim (scores deltas : Dict.t Store.addr) :
  NoDup (map snd scores) ->
  (forall a, In a (map snd deltas) -> ~ In a (map snd scores)) ->
  forall h,
    Forall (fun a => (a < List.length h)%nat) (map snd scores) ->
    exists h',
      Store.apply_delta h scores deltas = Ok h' /\
      apply_delta (Store.view h scores) (Store.view h deltas) = Ok (Store.view h' scores) /\
      List.length h' = List.length h /\
      forall a, ~ In a (map snd scores) -> Store.read h' a = Store.read h a.
Proof.
  intros Hnd. induction deltas as [| [dim changes] rest IH];
    intros Hdisj h Hrows.
  - exists h. repeat split; auto.
  - cbn [Store.apply_delta Store.view map fst snd apply_delta].
    fold (Store.view h rest). fold (Store.view h scores).
    unfold Store.view at 1. rewrite contains_map_values. fold (Store.view h scores).
    assert (Hrest : forall a, In a (map snd rest) -> ~ In a (map snd scores)).
    { intros a Ha. apply Hdisj. cbn [map snd]. now right. }
    destruct (Dict.contains dim scores) eqn:Hdim; cbn [negb].
    + destruct (apply_changes_sim scores dim (Store.read h changes) Hnd Hdim h Hrows)
        as (h1 & Hrun1 & Hpure1 & Hlen1 & Hframe1).
      rewrite Hrun1, Hpure1. cbn [bind].
      destruct (IH Hrest h1) as (h' & Hrun & Hpure & Hlen & Hframe).
      { rewrite Forall_forall in *. intros a Ha. rewrite Hlen1.
        now apply Hrows. }
      exists h'. split; [exact Hrun |]. split; [| split].
      * rewrite <- Hpure. f_equal. symmetry. apply view_agree.
        intros a Ha. apply Hframe1. now apply Hrest.
      * congruence.
      * intros a Ha. now rewrite (Hframe a Ha), (Hframe1 a Ha).
    + destruct (IH Hrest h Hrows) as (h' & Hrun & Hpure & Hlen & Hframe).
      exists h'. repeat split; auto.
Qed.


(** Where [init_scoreboard] puts the seven rows. *)
Lemma init_scoreboard_store h0 :
  Store.init_scoreboard h0
  = (h0 ++ [ zero_scores ACIDITY; zero_scores CAFFEINE; zero_scores ROAST;
             zero_scores FLAVOR; zero_scores PROCESS; zero_scores BREW;
             [("arabica", 0); ("blend", 0); ("robusta", 0)] ],
     [ ("acidity", (List.length h0 + 0)%nat);
       ("caffeine", (List.length h0 + 1)%nat);
       ("roast", (List.length h0 + 2)%nat);
       ("flavor", (List.length h0 + 3)%nat);
       ("process", (List.length h0 + 4)%nat);
       ("brew", (List.length h0 + 5)%nat);
       ("bean_pref", (List.length h0 + 6)%nat) ]).
Proof.
  unfold Store.init_scoreboard, Store.alloc. f_equal.
  - rewrite <- !app_assoc. reflexivity.
  - rewrite !length_app. cbn [List.length].
    repeat (f_equal; try lia).
Qed.

Lemma init_scoreboard_fresh h0 h1 (scores : Dict.t Store.addr) :
  Store.init_scoreboard h0 = (h1, scores) ->
  List.length h1 = (List.length h0 + 7)%nat /\
  (forall a, (a < List.length h0)%nat -> Store.read h1 a = Store.read h0 a) /\
  NoDup (map snd scores) /\
  Forall (fun a => (List.length h0 <= a < List.length h1)%nat)
    (map snd scores) /\
  Store.view h1 scores = init_scoreboard /\
  exists a c r f p b bp,
    scores = [ ("acidity", a); ("caffeine", c); ("roast", r); ("flavor", f);
               ("process", p); ("brew", b); ("bean_pref", bp) ].
Proof.
  rewrite init_scoreboard_store. intros [= <- <-].
  assert (Hlen : forall l : list (Dict.t Z),
             List.length (h0 ++ l) = (List.length h0 + List.length l)%nat)
    by (intros l; apply length_app).
  split; [rewrite Hlen; reflexivity |].
  split; [intros a Ha; now apply read_app_old |].
  split.
  { cbn [map snd].
    repeat (constructor; [cbn [In]; intuition lia |]). constructor. }
  split.
  { cbn [map snd]. rewrite Hlen. cbn [List.length].
    repeat (constructor; [lia |]). constructor. }
  split.
  { unfold Store.view, Store.read. cbn [map fst snd].
    rewrite !app_nth2_plus. reflexivity. }
  do 7 eexists. reflexivity.
Qed.

Lemma view_table_agree h h' (table : Dict.t Store.rule_ref) :
  (forall a, In a (Store.refs_of_table table) ->
             Store.read h' a = Store.read h a) ->
  Store.view_table h' table = Store.view_table h table.
Proof.
  intros H. unfold Store.view_table. apply map_ext_in.
  intros [k [[drefs reason] wt]] Hin. cbn [fst snd]. unfold Store.view_rule.
  cbn [fst snd]. do 3 f_equal. apply view_agree. intros a Ha. apply H.
  unfold Store.refs_of_table. apply in_flat_map.
  exists (k, (drefs, reason, wt)). split; [exact Hin | exact Ha].
Qed.

Lemma view_rules_agree h h' (rules : Dict.t (Dict.t Store.rule_ref)) :
  (forall a,
      In a (flat_map (fun e => Store.refs_of_table (snd e)) rules) ->
      Store.read h' a = Store.read h a) ->
  Store.view_rules h' rules = Store.view_rules h rules.
Proof.
  intros H. unfold Store.view_rules. apply map_ext_in.
  intros [k table] Hin. cbn [fst snd]. f_equal. apply view_table_agree.
  intros a Ha. apply H. apply in_flat_map. exists (k, table).
  split; [exact Hin | exact Ha].
Qed.

(** A world stays loaded when the heap keeps what was allocated. *)
Lemma loaded_frame w h' :
  Store.loaded w ->
  (List.length (Store.w_heap w) <= List.length h')%nat ->
  (forall a, (a < List.length (Store.w_heap w))%nat ->
             Store.read h' a = Store.read (Store.w_heap w) a) ->
  Store.loaded (Store.World h' (Store.w_RULES w) (Store.w_FLAVOR_RULES w)).
Proof.
  intros (Hrefs & HR & HF) Hlen Hframe. unfold Store.loaded, Store.refs_of_world.
  cbn [Store.w_heap Store.w_RULES Store.w_FLAVOR_RULES].
  unfold Store.refs_of_world in Hrefs. rewrite Forall_forall in Hrefs.
  split; [| split].
  - rewrite Forall_forall. intros a Ha. specialize (Hrefs a Ha). lia.
  - rewrite <- HR. apply view_rules_agree. intros a Ha. apply Hframe, Hrefs.
    apply in_or_app. now left.
  - rewrite <- HF. apply view_table_agree. intros a Ha. apply Hframe, Hrefs.
    apply in_or_app. now right.
Qed.

Section Call.

(** One call: the world it starts in, and the scoreboard it created. *)
Variable w : Store.world.
Variable scores : Dict.t Store.addr.
Variable n7 : nat.
Hypothesis Hloaded : Store.loaded w.
Hypothesis Hnodup : NoDup (map snd scores).
Hypothesis Hrows :
  Forall (fun a => (List.length (Store.w_heap w) <= a < n7)%nat)
    (map snd scores).

(** The body shared by the two loops, for a table of the catalog. *)
Lemma rule_body_sim (table : Dict.t Store.rule_ref) value h rs :
  (forall a, In a (Store.refs_of_table table) ->
             (a < List.length (Store.w_heap w))%nat) ->
  Store.during w n7 h ->
  exists h' rs',
    (if negb (Dict.contains value table) then Ok (h, rs)
     else
       ' (deltas, reason, r_weight) <- Dict.getitem value table ;;
       h' <- Store.apply_delta h scores deltas ;;
       Ok (h', rs ++ [(reason, r_weight)]))
    = Ok (h', rs') /\
    (if negb (Dict.contains value (Store.view_table (Store.w_heap w) table))
     then Ok (Store.view h scores, rs)
     else
       ' (deltas, reason, r_weight) <-
         Dict.getitem value (Store.view_table (Store.w_heap w) table) ;;
       s' <- apply_delta (Store.view h scores) deltas ;;
       Ok (s', rs ++ [(reason, r_weight)]))
    = Ok (Store.view h' scores, rs') /\
    Store.during w n7 h'.
Proof.
  intros Hrefs [Hlen Hframe].
  unfold Store.view_table at 1. rewrite contains_map_values.
  destruct (Dict.contains value table) eqn:Hin; cbn [negb].
  - destruct (contains_true_getitem _ _ Hin) as [[[drefs reason] wt] Hget].
    unfold Store.view_table. rewrite getitem_map_values, Hget.
    unfold Store.view_rule. cbn [bind fst snd].
    assert (Hdrefs : forall a, In a (map snd drefs) ->
                               (a < List.length (Store.w_heap w))%nat).
    { intros a Ha. apply Hrefs. unfold Store.refs_of_table.
      apply in_flat_map. exists (value, (drefs, reason, wt)).
      split; [exact (getitem_Ok_In _ _ _ Hget) | exact Ha]. }
    assert (Hdisj : forall a, In a (map snd drefs) -> ~ In a (map snd scores)).
    { intros a Ha Hs. specialize (Hdrefs a Ha).
      rewrite Forall_forall in Hrows. specialize (Hrows a Hs). lia. }
    destruct (apply_delta_sim scores drefs Hnodup Hdisj h)
      as (h' & Hrun & Hpure & Hlen' & Hframe').
    { rewrite Forall_forall in *. intros a Ha. specialize (Hrows a Ha). lia. }
    exists h', (rs ++ [(reason, wt)]). rewrite Hrun. cbn [bind].
    split; [reflexivity |].
    assert (Hbelow : forall a, (a < List.length (Store.w_heap w))%nat ->
                               ~ In a (map snd scores)).
    { intros a Ha Hs. rewrite Forall_forall in Hrows.
      specialize (Hrows a Hs). lia. }
    split.
    + replace (Store.view (Store.w_heap w) drefs) with (Store.view h drefs).
      * rewrite Hpure. reflexivity.
      * apply view_agree. intros a Ha. apply Hframe. now apply Hdrefs.
    + split; [congruence |]. intros a Ha.
      rewrite (Hframe' a (Hbelow a Ha)). now apply Hframe.
  - exists h, rs. repeat split; auto.
Qed.

Lemma table_refs_below field_name a :
  In a (Store.refs_of_table (Dict.get field_name (Store.w_RULES w) [])) ->
  (a < List.length (Store.w_heap w))%nat.
Proof.
  destruct Hloaded as (Hrefs & _). rewrite Forall_forall in Hrefs.
  unfold Dict.get.
  destruct (Dict.getitem field_name (Store.w_RULES w)) as [table |] eqn:Hget;
    [| contradiction].
  intros Ha. apply Hrefs. unfold Store.refs_of_world. apply in_or_app. left.
  apply in_flat_map. exists (field_name, table).
  split; [exact (getitem_Ok_In _ _ _ Hget) | exact Ha].
Qed.

Lemma field_rules_loaded field_name :
  Store.view_table (Store.w_heap w)
    (Dict.get field_name (Store.w_RULES w) [])
  = Dict.get field_name RULES [].
Proof.
  destruct Hloaded as (_ & HR & _). rewrite <- HR. unfold Dict.get.
  unfold Store.view_rules. rewrite getitem_map_values.
  destruct (Dict.getitem field_name (Store.w_RULES w)); reflexivity.
Qed.

Lemma single_choice_step_sim h rs fv :
  Store.during w n7 h ->
  exists h' rs',
    Store.single_choice_step w scores (h, rs) fv = Ok (h', rs') /\
    single_choice_step (Store.view h scores, rs) fv
    = Ok (Store.view h' scores, rs') /\
    Store.during w n7 h'.
Proof.
  intros Hd. destruct fv as [field_name value].
  destruct (rule_body_sim (Dict.get field_name (Store.w_RULES w) []) value h rs
              (table_refs_below field_name) Hd)
    as (h' & rs' & Hrun & Hpure & Hd').
  rewrite field_rules_loaded in Hpure.
  exists h', rs'. split; [exact Hrun |]. split; [exact Hpure | exact Hd'].
Qed.

Lemma flavor_step_sim h rs f :
  Store.during w n7 h ->
  exists h' rs',
    Store.flavor_step w scores (h, rs) f = Ok (h', rs') /\
    flavor_step (Store.view h scores, rs) f = Ok (Store.view h' scores, rs') /\
    Store.during w n7 h'.
Proof.
  intros Hd.
  assert (Hrefs : forall a,
             In a (Store.refs_of_table (Store.w_FLAVOR_RULES w)) ->
             (a < List.length (Store.w_heap w))%nat).
  { destruct Hloaded as (Hrefs & _). rewrite Forall_forall in Hrefs.
    intros a Ha. apply Hrefs. unfold Store.refs_of_world.
    apply in_or_app. now right. }
  destruct (rule_body_sim (Store.w_FLAVOR_RULES w) f h rs Hrefs Hd)
    as (h' & rs' & Hrun & Hpure & Hd').
  destruct Hloaded as (_ & _ & HF). rewrite HF in Hpure.
  exists h', rs'. split; [exact Hrun |]. split; [exact Hpure | exact Hd'].
Qed.

Lemma for_each_sim {A : Type}
    (body_store : Store.heap * list (string * Z) -> A ->
                  result (Store.heap * list (string * Z)))
    (body : engine_state -> A -> result engine_state) :
  (forall h rs x,
      Store.during w n7 h ->
      exists h' rs',
        body_store (h, rs) x = Ok (h', rs') /\
        body (Store.view h scores, rs) x = Ok (Store.view h' scores, rs') /\
        Store.during w n7 h') ->
  forall xs h rs,
    Store.during w n7 h ->
    exists h' rs',
      for_each body_store xs (h, rs) = Ok (h', rs') /\
      for_each body xs (Store.view h scores, rs)
      = Ok (Store.view h' scores, rs') /\
      Store.during w n7 h'.
Proof.
  intros Hbody. induction xs as [| x xs IH]; intros h rs Hd;
    cbn [for_each].
  - exists h, rs. split; [reflexivity | split; [reflexivity | exact Hd]].
  - destruct (Hbody h rs x Hd) as (h1 & rs1 & Hrun1 & Hpure1 & Hd1).
    rewrite Hrun1, Hpure1. cbn [bind]. exact (IH h1 rs1 Hd1).
Qed.

(** Both loops: they end in a heap whose view of the scoreboard is the
    scoreboard that [run_rules] computes, with the same reasons. *)
Lemma loops_sim user h1 :
  Store.during w n7 h1 ->
  Store.view h1 scores = init_scoreboard ->
  exists h2 rs2 h' rs',
    for_each (Store.single_choice_step w scores)
      (single_choice_fields user) (h1, []) = Ok (h2, rs2) /\
    for_each (Store.flavor_step w scores)
      (UserPref.flavor_direction user) (h2, rs2) = Ok (h', rs') /\
    run_rules user = Ok (Store.view h' scores, rs') /\
    Store.during w n7 h'.
Proof.
  intros Hd Hinit.
  destruct (for_each_sim (Store.single_choice_step w scores)
              single_choice_step single_choice_step_sim
              (single_choice_fields user) h1 (@nil (string * Z)) Hd)
    as (h2 & rs2 & Hrun2 & Hpure2 & Hd2).
  destruct (for_each_sim (Store.flavor_step w scores) flavor_step
              flavor_step_sim (UserPref.flavor_direction user) h2 rs2 Hd2)
    as (h3 & rs3 & Hrun3 & Hpure3 & Hd3).
  exists h2, rs2, h3, rs3. split; [exact Hrun2 |]. split; [exact Hrun3 |].
  split; [| exact Hd3].
  rewrite Hinit in Hpure2.
  assert (E : for_each single_choice_step (single_choice_fields user)
                (init_scoreboard, [])
              = Ok (Store.view h2 scores, rs2)) by exact Hpure2.
  unfold run_rules. rewrite E. cbn [bind]. exact Hpure3.
Qed.

End Call.

(** One call of [build_profile] in a loaded world: it returns what the
    function on values computes, allocates its scoreboard behind
    everything that was there, and leaves every earlier object, the
    catalog included, as it was. *)
Lemma build_profile_store w user :
  Store.loaded w ->
  exists out w',
    Store.build_profile w user = Ok (out, w') /\
    build_profile user = Ok (Store.observe (Store.w_heap w') out) /\
    Store.loaded w' /\
    (List.length (Store.w_heap w) <= List.length (Store.w_heap w'))%nat /\
    (forall a, (a < List.length (Store.w_heap w))%nat ->
               Store.read (Store.w_heap w') a = Store.read (Store.w_heap w) a) /\
    Forall (fun a => (a < List.length (Store.w_heap w'))%nat)
      (map snd (Store.o_scores out)).
Proof.
  intros Hl.
  destruct (Store.init_scoreboard (Store.w_heap w)) as [h1 scores] eqn:Hinit.
  destruct (init_scoreboard_fresh _ _ _ Hinit)
    as (Hlen1 & Hframe1 & Hnd & Hrows & Hview
        & (a & c & r & f & p & b & bp & Hsc)).
  assert (Hd1 : Store.during w (List.length h1) h1)
    by (split; [reflexivity | exact Hframe1]).
  destruct (loops_sim w scores (List.length h1) Hl Hnd Hrows user h1 Hd1 Hview)
    as (h2 & rs2 & h' & rs' & Hrun2 & Hrun3 & Hpure & [Hlen' Hframe']).
  subst scores.
  exists (Store.Output
            (Profile.Build
               (argmax_label (Store.read h' a)) (argmax_label (Store.read h' c))
               (argmax_label (Store.read h' r)) (argmax_label (Store.read h' f))
               (argmax_label (Store.read h' p)) (argmax_label (Store.read h' b))
               (overridden user (argmax_label (Store.read h' bp))))
            [ ("acidity", a); ("caffeine", c); ("roast", r); ("flavor", f);
              ("process", p); ("brew", b); ("bean_pref", bp) ]
            (top_reasons rs' 4) DISCLAIMER),
    (Store.World h' (Store.w_RULES w) (Store.w_FLAVOR_RULES w)).
  split.
  { unfold Store.build_profile. rewrite Hinit, Hrun2. cbn [bind].
    rewrite Hrun3. reflexivity. }
  split.
  { exact (build_profile_board user
             (Store.read h' a) (Store.read h' c) (Store.read h' r)
             (Store.read h' f) (Store.read h' p) (Store.read h' b)
             (Store.read h' bp) rs' Hpure). }
  cbn [Store.w_heap Store.o_scores].
  assert (Hge : (List.length (Store.w_heap w) <= List.length h')%nat) by lia.
  split; [exact (loaded_frame w h' Hl Hge Hframe') |].
  split; [exact Hge |]. split; [exact Hframe' |].
  rewrite Forall_forall in *. intros x Hx. specialize (Hrows x Hx). lia.
Qed.

Lemma run_calls_store users :
  forall w,
    Store.loaded w ->
    exists w',
      Store.run_calls w users = Ok w' /\
      Store.loaded w' /\
      (List.length (Store.w_heap w) <= List.length (Store.w_heap w'))%nat /\
      (forall a, (a < List.length (Store.w_heap w))%nat ->
                 Store.read (Store.w_heap w') a
                 = Store.read (Store.w_heap w) a).
Proof.
  induction users as [| user rest IH]; intros w Hl; cbn [Store.run_calls].
  - exists w. split; [reflexivity |]. split; [exact Hl |].
    split; [lia | reflexivity].
  - destruct (build_profile_store w user Hl)
      as (out & w1 & Hrun & _ & Hl1 & Hlen1 & Hframe1 & _).
    rewrite Hrun. cbn [bind snd].
    destruct (IH w1 Hl1) as (w' & Hrun' & Hl' & Hlen' & Hframe').
    exists w'. split; [exact Hrun' |]. split; [exact Hl' |].
    split; [lia |]. intros a0 Ha. rewrite Hframe' by lia. now apply Hframe1.
Qed.

Lemma load_module_loaded : Store.loaded Store.load_module.
Proof.
  split; [| split; vm_compute; reflexivity].
  apply Forall_forall. intros a Ha.
  assert (Hb : forallb
                 (fun a => Nat.ltb a
                             (List.length (Store.w_heap Store.load_module)))
                 (Store.refs_of_world Store.load_module) = true)
    by (vm_compute; reflexivity).
  rewrite forallb_forall in Hb. apply Nat.ltb_lt. now apply Hb.
Qed.

(** C5 (determinism): however many calls of [build_profile] went before
    and come between, two calls with the same field values return the
    same output: the same labels, scores, reasons and disclaimer.  A call
    keeps no state: it writes to the scoreboard that it allocated itself
    and to nothing else, so the catalog that the module was loaded with
    is intact afterwards and an output returned earlier still reads the
    same.  The output is the one that the function on values computes
    from the answers alone. *)
Theorem build_profile_deterministic_across_calls
    (prior between : list UserPref.t) (u1 u2 : UserPref.t) :
  same_answers u1 u2 ->
  exists w0 out1 w1 w2 out2 w3,
    Store.run_calls Store.load_module prior = Ok w0 /\
    Store.build_profile w0 u1 = Ok (out1, w1) /\
    Store.run_calls w1 between = Ok w2 /\
    Store.build_profile w2 u2 = Ok (out2, w3) /\
    Store.observe (Store.w_heap w3) out2
    = Store.observe (Store.w_heap w1) out1 /\
    Store.observe (Store.w_heap w3) out1
    = Store.observe (Store.w_heap w1) out1 /\
    build_profile u1 = Ok (Store.observe (Store.w_heap w1) out1) /\
    Store.view_rules (Store.w_heap w3) (Store.w_RULES w3) = RULES /\
    Store.view_table (Store.w_heap w3) (Store.w_FLAVOR_RULES w3)
    = FLAVOR_RULES.
Proof.
  intros Hsame.
  assert (Hu : u1 = u2).
  { destruct u1, u2. unfold same_answers in Hsame.
    cbn [UserPref.stomach_sensitivity UserPref.caffeine_sensitivity
           UserPref.time_of_day UserPref.purpose UserPref.flavor_direction
           UserPref.brew_method] in Hsame.
    destruct Hsame as (-> & -> & -> & -> & -> & ->). reflexivity. }
  subst u2.
  destruct (run_calls_store prior Store.load_module load_module_loaded)
    as (w0 & Hrun0 & Hl0 & _).
  destruct (build_profile_store w0 u1 Hl0)
    as (out1 & w1 & Hcall1 & Hpure1 & Hl1 & _ & _ & Hrefs1).
  destruct (run_calls_store between w1 Hl1)
    as (w2 & Hrun2 & Hl2 & Hlen2 & Hframe2).
  destruct (build_profile_store w2 u1 Hl2)
    as (out2 & w3 & Hcall2 & Hpure2 & Hl3 & Hlen3 & Hframe3 & _).
  exists w0, out1, w1, w2, out2, w3.
  split; [exact Hrun0 |]. split; [exact Hcall1 |]. split; [exact Hrun2 |].
  split; [exact Hcall2 |]. split; [congruence |].
  split; [| split; [exact Hpure1 | exact (proj2 Hl3)]].
  unfold Store.observe. f_equal. apply view_agree. intros a Ha.
  rewrite Forall_forall in Hrefs1. specialize (Hrefs1 a Ha).
  rewrite Hframe3 by lia. now apply Hframe2.
Qed.

Lemma build_profile_deterministic_across_calls_witness :
  same_answers scenarioA
    (UserPref.Build "high" "high" "evening" "calm" ["floral"] "filter") /\
  exists w0 out1 w1 w2 out2 w3,
    Store.run_calls Store.load_module
      [UserPref.Build "low" "low" "morning" "focus" ["spicy"] "espresso"]
    = Ok w0 /\
    Store.build_profile w0 scenarioA = Ok (out1, w1) /\
    Store.run_calls w1 [with_flavors scenarioA ["fruity"; "fruity"]] = Ok w2 /\
    Store.build_profile w2
      (UserPref.Build "high" "high" "evening" "calm" ["floral"] "filter")
    = Ok (out2, w3) /\
    Store.observe (Store.w_heap w3) out2
    = Store.observe (Store.w_heap w1) out1 /\
    Store.observe (Store.w_heap w3) out1
    = Store.observe (Store.w_heap w1) out1 /\
    build_profile scenarioA = Ok (Store.observe (Store.w_heap w1) out1) /\
    Store.view_rules (Store.w_heap w3) (Store.w_RULES w3) = RULES /\
    Store.view_table (Store.w_heap w3) (Store.w_FLAVOR_RULES w3)
    = FLAVOR_RULES.
Proof.
  assert (H : same_answers scenarioA
                (UserPref.Build "high" "high" "evening" "calm" ["floral"]
                   "filter"))
    by (repeat split; reflexivity).
  split; [exact H |].
  exact (build_profile_deterministic_across_calls
           [UserPref.Build "low" "low" "morning" "focus" ["spicy"] "espresso"]
           [with_flavors scenarioA ["fruity"; "fruity"]]
           scenarioA
           (UserPref.Build "high" "high" "evening" "calm" ["floral"] "filter")
           H).
Defined.
